(** * Semantic zoom scatter plot (src/App.tsx)

    A shallow embedding of the scatter-plot component: the module-level
    domain bounds and colour table, the semantic unit [transformFunc], the
    zoom wiring around d3-zoom, [resetZoom], the SVG scene built by [App]
    and the [Point] marker with its hover state.

    Numbers.  A JavaScript number is modelled as a [jsval]: a finite value
    carried by a rational [Q] (binary64 rounding is idealised away, the
    arithmetic is exact), [JNaN], or [JUndefined] for an array read past
    the end.  The model has no infinities: the one division whose divisor
    is not a nonzero literal is [dimension / k], and in every state of the
    mounted component the zoom factor [k] is positive (lemma
    [reachable_k_pos]); a zero divisor is mapped to [JNaN].  The end-to-end
    scenario of the spec is also run on binary64 numbers
    ([scenario_binary64]), and the one product whose rounding decides a
    displayed digit, the percentage of the legend, is rounded to binary64
    ([round64]).

    d3-zoom and the colour generator are dependencies of the program: the
    few operations the program calls are modelled next to their call
    sites.  The frames of the reset animation are events of the model; the
    transform d3 interpolates for a frame comes with the event. *)

From Stdlib Require Import QArith Qround Qabs Qpower Qminmax Lqa ZArith Lia.
From Stdlib Require PrimFloat.
From stdpp Require Import base option list strings gmap.

Module Plot.

Local Open Scope Q_scope.

(** ** JavaScript values *)

Inductive jsval : Type :=
  | JUndefined
  | JNaN
  | JNum (q : Q).

(** ToNumber followed by a binary arithmetic operator: anything that is not
    a finite number makes the result NaN. *)
Definition js_arith (op : Q -> Q -> Q) (a b : jsval) : jsval :=
  match a, b with
  | JNum x, JNum y => JNum (op x y)
  | _, _ => JNaN
  end.

Definition js_add : jsval -> jsval -> jsval := js_arith Qplus.
Definition js_sub : jsval -> jsval -> jsval := js_arith Qminus.
Definition js_mul : jsval -> jsval -> jsval := js_arith Qmult.

(** Division; the quotient by zero, an infinity or NaN in JavaScript, is
    not a finite number. *)
Definition js_div (a b : jsval) : jsval :=
  match a, b with
  | JNum x, JNum y => if Qeq_bool y 0 then JNaN else JNum (x / y)
  | _, _ => JNaN
  end.

Definition js_neg (a : jsval) : jsval :=
  match a with
  | JNum x => JNum (- x)
  | _ => JNaN
  end.

Definition Math_min : jsval -> jsval -> jsval := js_arith Qmin.
Definition Math_max : jsval -> jsval -> jsval := js_arith Qmax.

(** [a < b] on finite numbers. *)
Definition Qltb (x y : Q) : bool := negb (Qle_bool y x).

(** Equality of values up to the representation of the rational. *)
Definition js_eq (a b : jsval) : Prop :=
  match a, b with
  | JUndefined, JUndefined => True
  | JNaN, JNaN => True
  | JNum x, JNum y => x == y
  | _, _ => False
  end.

Definition js_le (a b : jsval) : Prop :=
  match a, b with
  | JNum x, JNum y => x <= y
  | _, _ => False
  end.

Infix "=js" := js_eq (at level 70, no associativity).

(** ** Completions: a JavaScript evaluation returns or throws *)

Inductive completion (A : Type) : Type :=
  | Normal (a : A)
  | Throw (e : string).
Arguments Normal {A} a.
Arguments Throw {A} e.

Definition cbind {A B} (c : completion A) (f : A -> completion B) : completion B :=
  match c with
  | Normal a => f a
  | Throw e => Throw e
  end.

#[export] Instance completion_bind : MBind completion :=
  λ A B f c, cbind c f.

(** ** Arrays *)

(** [arr[i]] for an integer [i]: [None] is JavaScript's [undefined]. *)
Definition index {A} (arr : list A) (i : Z) : option A :=
  if (i <? 0)%Z then None else arr !! Z.to_nat i.

Definition num_at (arr : list Q) (i : Z) : jsval :=
  match index arr i with
  | Some q => JNum q
  | None => JUndefined
  end.

(** [Array.prototype.reduce(callback, initialValue?)] on an array of
    values.  With the second argument left out the first element seeds the
    fold, and an empty array throws; with it present the fold always
    returns, whatever the seed is. *)
Definition reduce {A} (arr : list A) (callback : A -> A -> A)
    (initialValue : option A) : completion A :=
  match initialValue, arr with
  | Some init, _ => Normal (fold_left callback arr init)
  | None, x :: rest => Normal (fold_left callback rest x)
  | None, [] => Throw "TypeError: Reduce of empty array with no initial value"
  end.

(** ** The dataset (data/sample-test.json) *)

Record Data : Type := {
  cellid : list string;
  celltype : list string;
  xumap : list Q;
  yumap : list Q;
  celltypes : list string;
}.

(** ** Module-level constants *)

(** The colour generator [faker.color.rgb()] is external: [faker n] is the
    string returned by its [n]-th call. *)
Definition Faker : Type := nat -> string.

(** One turn of the loop [for (const celltype of data.celltypes)]: the table
    built so far and the number of colours drawn so far. *)
Definition color_step (faker : Faker) (acc : gmap string string * nat)
    (ct : string) : gmap string string * nat :=
  if String.eqb ct "Total" then acc
  else (<[ct := faker (snd acc)]> (fst acc), S (snd acc)).

Definition build_cellColors (faker : Faker) (cts : list string)
    : gmap string string :=
  fst (fold_left (color_step faker) cts (∅, 0%nat)).

Definition minZoom : Q := 0.5.
Definition maxZoom : Q := 100.

(** What the module holds once its top-level statements have run. *)
Record Module : Type := {
  data : Data;
  minX : jsval;
  maxX : jsval;
  minY : jsval;
  maxY : jsval;
  cellColors : gmap string string;
}.

Definition extreme (pick : jsval -> jsval -> jsval) (arr : list Q)
    : completion jsval :=
  reduce (JNum <$> arr) pick (Some (num_at arr 0)).

(** Lines 6-17, in order. *)
Definition module_init (faker : Faker) (d : Data) : completion Module :=
  x0 ← extreme Math_min (xumap d);
  x1 ← extreme Math_max (xumap d);
  y0 ← extreme Math_min (yumap d);
  y1 ← extreme Math_max (yumap d);
  Normal {| data := d; minX := x0; maxX := x1; minY := y0; maxY := y1;
            cellColors := build_cellColors faker (celltypes d) |}.

(** ** The semantic unit *)

Definition capK : Q := maxZoom * 0.75.

(** [transformFunc], closed over the current scale factor [k]. *)
Definition transformFunc (k : Q) (dimension : jsval) : jsval :=
  if Qltb k (maxZoom * 0.75) then js_div dimension (JNum k)
  else js_div dimension (JNum (maxZoom * 0.75)).

Definition baseUnit (m : Module) : jsval :=
  js_div (js_sub (maxY m) (minY m)) (JNum 250).

(** [const unit = transformFunc((maxY - minY) / 250)]. *)
Definition unit (m : Module) (k : Q) : jsval :=
  transformFunc k (js_div (js_sub (maxY m) (minY m)) (JNum 250)).

(** ** d3-zoom *)

(** Modelled from the spec: d3-zoom is a dependency, its code is not under
    src/.  A transform is the spec's ViewTransform [{translateX,
    translateY, scale}]; [zoomIdentity] is the identity, and
    [Transform_scale] multiplies the scale and leaves the translation. *)
Record Transform : Type := { tk : Q; tx : Q; ty : Q }.

Definition zoomIdentity : Transform := {| tk := 1; tx := 0; ty := 0 |}.

Definition Transform_scale (t : Transform) (s : Q) : Transform :=
  {| tk := tk t * s; tx := tx t; ty := ty t |}.

(** The behaviour returned by [d3.zoom()], with the one field the program
    sets. *)
Record ZoomBehavior : Type := { scaleExtent : Q * Q }.

(** A wheel or pinch asks for scale [s] around the pointer [(px, py)]; a
    drag asks for a translation. *)
Inductive Gesture : Type :=
  | Wheel (s px py : Q)
  | Drag (dx dy : Q).

(** Modelled from the spec: what d3-zoom makes of a gesture (sections 4.1
    and 8).  The requested scale is clamped into the scale extent as
    [max(lo, min(hi, s))], the data point under the pointer keeps its screen
    position, and a pan translates without touching the scale; the
    translation is not constrained. *)
Definition d3_gesture (z : ZoomBehavior) (t : Transform) (g : Gesture)
    : Transform :=
  match g with
  | Wheel s px py =>
      let k' := Qmax (fst (scaleExtent z)) (Qmin (snd (scaleExtent z)) s) in
      {| tk := k';
         tx := px - k' * ((px - tx t) / tk t);
         ty := py - k' * ((py - ty t) / tk t) |}
  | Drag dx dy => {| tk := tk t; tx := tx t + dx; ty := ty t + dy |}
  end.

(** [selection.transition().duration(ms).call(zoom.transform, target)]. *)
Record Transition : Type := { duration : Z; target : Transform }.

(** ** Component state *)

Record State : Type := {
  svgRef : bool;                    (* svgRef.current is attached *)
  zoomRef : option ZoomBehavior;    (* zoomRef.current *)
  k : Q;                            (* useState(1) in App *)
  view : Transform;                 (* the transform d3 keeps on the svg *)
  g_transform : option Transform;   (* attribute written by the zoom handler *)
  transition : option Transition;   (* reset animation in flight *)
  tooltip : list bool;              (* useState(false) of each Point *)
}.

Definition set_view (t : Transform) (st : State) : State :=
  {| svgRef := svgRef st; zoomRef := zoomRef st; k := k st; view := t;
     g_transform := g_transform st; transition := transition st;
     tooltip := tooltip st |}.

Definition set_transition (tr : option Transition) (st : State) : State :=
  {| svgRef := svgRef st; zoomRef := zoomRef st; k := k st; view := view st;
     g_transform := g_transform st; transition := tr;
     tooltip := tooltip st |}.

Definition setTooltip (i : nat) (b : bool) (st : State) : State :=
  {| svgRef := svgRef st; zoomRef := zoomRef st; k := k st; view := view st;
     g_transform := g_transform st; transition := transition st;
     tooltip := <[i := b]> (tooltip st) |}.

(** First render of [App], before any effect has run. *)
Definition initial (d : Data) : State :=
  {| svgRef := false; zoomRef := None; k := 1; view := zoomIdentity;
     g_transform := None; transition := None;
     tooltip := replicate (length (cellid d)) false |}.

(** The ["zoom"] listener of lines 51-54. *)
Definition on_zoom (t : Transform) (st : State) : State :=
  {| svgRef := svgRef st; zoomRef := zoomRef st; k := tk t; view := view st;
     g_transform := Some t; transition := transition st;
     tooltip := tooltip st |}.

(** d3 stores the new transform on the element and calls the listener. *)
Definition emit (t : Transform) (st : State) : State :=
  on_zoom t (set_view t st).

(** React attaches the svg to [svgRef], then the effect of lines 39-58
    runs once. *)
Definition zoom_effect (st : State) : State :=
  if svgRef st then
    {| svgRef := svgRef st;
       zoomRef := Some {| scaleExtent := (minZoom, maxZoom) |};
       k := k st; view := zoomIdentity; g_transform := g_transform st;
       transition := transition st; tooltip := tooltip st |}
  else st.

Definition mount (st : State) : State :=
  zoom_effect
    {| svgRef := true; zoomRef := zoomRef st; k := k st; view := view st;
       g_transform := g_transform st; transition := transition st;
       tooltip := tooltip st |}.

(** [resetZoom], lines 61-72. *)
Definition resetZoom (st : State) : State :=
  match zoomRef st with
  | Some _ =>
      if svgRef st then
        set_transition
          (Some {| duration := 250;
                   target := Transform_scale zoomIdentity 0.8 |}) st
      else st
  | None => st
  end.

Inductive Event : Type :=
  | EGesture (g : Gesture)
  | EResetClick
  | ETransitionEnd
  | EMouseEnter (i : nat)
  | EMouseLeave (i : nat)
  | ETweenFrame (num den : positive) (x y : Q).

(** Modelled from the spec: a frame of the reset animation (section 5).
    While the transition runs, every animation frame recomputes an
    interpolated transform, which d3 stores on the svg and hands to the
    ["zoom"] listener; the scale extent is not applied to it.  The
    interpolation is d3's: the frame carries its result, a transform of
    positive scale [num / den]. *)
Definition tween_transform (num den : positive) (x y : Q) : Transform :=
  {| tk := Zpos num # den; tx := x; ty := y |}.

(** One turn of the event loop.  A gesture is handled by the zoom behaviour
    installed on the svg, if any, and pre-empts a reset in flight; a frame
    of a running transition publishes its interpolated transform and leaves
    the transition running; a transition that runs to its end leaves the
    svg at its target. *)
Definition step (st : State) (ev : Event) : State :=
  match ev with
  | EGesture g =>
      match zoomRef st with
      | Some z => emit (d3_gesture z (view st) g) (set_transition None st)
      | None => st
      end
  | EResetClick => resetZoom st
  | ETransitionEnd =>
      match transition st with
      | Some tr => emit (target tr) (set_transition None st)
      | None => st
      end
  | EMouseEnter i => setTooltip i true st
  | EMouseLeave i => setTooltip i false st
  | ETweenFrame num den x y =>
      match transition st with
      | Some _ => emit (tween_transform num den x y) st
      | None => st
      end
  end.

Definition run (st : State) (evs : list Event) : State :=
  fold_left step evs st.

(** States the mounted component can be in. *)
Inductive reachable (d : Data) : State -> Prop :=
  | reach_mount : reachable d (mount (initial d))
  | reach_step st ev : reachable d st -> reachable d (step st ev).

(** ** The SVG scene *)

(** A child of a text span: literal text, an interpolated number, or an
    interpolated string that may be [undefined]. *)
Inductive Child : Type :=
  | CText (s : string)
  | CNum (v : jsval)
  | CStr (s : option string).

Record Tspan : Type := {
  tspan_x : string;
  dy : option string;
  children : list Child;
}.

(** [<g transform="translate(..)"><text transform="scale(..)" x="0" y="0">]. *)
Record TextGroup : Type := {
  translate : jsval * jsval;
  text_scale : jsval * jsval;
  tspans : list Tspan;
}.

Inductive PathCmd : Type :=
  | M (x y : jsval)
  | L (x y : jsval).

Record Path : Type := {
  d : list PathCmd;
  stroke : string;
  path_fill : string;
  strokeWidth : jsval;
  strokeLinejoin : string;
}.

Record Circle : Type := {
  id : option string;
  cx : jsval;
  cy : jsval;
  r : jsval;
  fill : string;
  fillOpacity : Q;
}.

(** What [Point] returns when it returns an element. *)
Record Fragment : Type := {
  key : option string;
  circle : Circle;
  tip : option TextGroup;
}.

Definition JS (n : Z) : jsval := JNum (inject_Z n).

(** [scale(${unit / 4}, ${-unit / 4})]. *)
Definition counter_scale (unit : jsval) : jsval * jsval :=
  (js_div unit (JS 4), js_div (js_neg unit) (JS 4)).

(** [cellColors.get(celltype) ?? "black"]; no key of the table is
    [undefined]. *)
Definition fill_of (m : Module) (ct : option string) : string :=
  default "black" (ct ≫= λ c, cellColors m !! c).

(** The [Point] component; [tooltip] is its [useState(false)] cell and
    [None] the [null] of line 197. *)
Definition Point (m : Module) (i : Z) (unit : jsval) (tooltip : bool)
    : option Fragment :=
  if ((i <? 0) || (i >=? Z.of_nat (length (cellid (data m)))))%Z then None
  else
    let x := num_at (xumap (data m)) i in
    let y := num_at (yumap (data m)) i in
    let cellid := index (cellid (data m)) i in
    let celltype := index (celltype (data m)) i in
    Some
      {| key := cellid;
         circle :=
           {| id := cellid; cx := x; cy := y;
              r := if tooltip then js_mul unit (JS 2) else unit;
              fill := fill_of m celltype;
              fillOpacity := 0.8 |};
         tip :=
           if tooltip then
             Some
               {| translate := (js_add x (js_mul unit (JS 2)), y);
                  text_scale := counter_scale unit;
                  tspans :=
                    [ {| tspan_x := "0"; dy := None;
                         children := [CStr cellid] |};
                      {| tspan_x := "0"; dy := Some "1.2em";
                         children := [CStr celltype] |} ] |}
           else None |}.

Record Scene : Type := {
  viewBox : jsval * jsval * jsval * jsval;
  svg_scale : Z * Z;
  g_attr : option Transform;
  points : list (option Fragment);
  paths : list Path;
  labels : list TextGroup;
}.

(** The frame: the L-shaped border, then the arrowhead on top of the y axis
    and the one at the end of the x axis (lines 90-114). *)
Definition frame_paths (m : Module) (unit : jsval) : list Path :=
  let half := js_div unit (JS 2) in
  [ {| d := [ M (minX m) (maxY m); L (minX m) (minY m);
              L (maxX m) (minY m) ];
       stroke := "black"; path_fill := "none";
       strokeWidth := js_div unit (JS 2); strokeLinejoin := "round" |};
    {| d := [ M (minX m) (js_add (maxY m) unit);
              L (js_sub (minX m) half) (maxY m);
              L (js_add (minX m) half) (maxY m);
              L (minX m) (js_add (maxY m) unit) ];
       stroke := "black"; path_fill := "black";
       strokeWidth := js_div unit (JS 2); strokeLinejoin := "round" |};
    {| d := [ M (js_add (maxX m) unit) (minY m);
              L (maxX m) (js_sub (minY m) half);
              L (maxX m) (js_add (minY m) half);
              L (js_add (maxX m) unit) (minY m) ];
       stroke := "black"; path_fill := "black";
       strokeWidth := js_div unit (JS 2); strokeLinejoin := "round" |} ].

(** The axis labels of lines 115-132. *)
Definition axis_labels (m : Module) (unit : jsval) : list TextGroup :=
  let left := js_sub (minX m) (js_mul unit (JS 10)) in
  let right := js_sub (maxX m) (js_mul unit (JS 10)) in
  let below := js_sub (minY m) (js_mul unit (JS 5)) in
  let above := js_add (maxY m) (js_mul unit (JS 5)) in
  [ {| translate := (left, below); text_scale := counter_scale unit;
       tspans :=
         [ {| tspan_x := "0"; dy := None;
              children := [CText "x="; CNum (minX m)] |};
           {| tspan_x := "0"; dy := Some "1.2em";
              children := [CText "y="; CNum (minY m)] |} ] |};
    {| translate := (left, above); text_scale := counter_scale unit;
       tspans :=
         [ {| tspan_x := "0"; dy := None;
              children := [CText "y="; CNum (maxY m)] |} ] |};
    {| translate := (right, below); text_scale := counter_scale unit;
       tspans :=
         [ {| tspan_x := "0"; dy := None;
              children := [CText "x="; CNum (maxX m)] |} ] |} ].

(** The tooltip cell of the [i]-th marker; a cell never written holds its
    initial [false]. *)
Definition tooltip_at (st : State) (i : nat) : bool :=
  default false (tooltip st !! i).

(** The svg element rendered by [App] (lines 79-134). *)
Definition App (m : Module) (st : State) : Scene :=
  let unit := unit m (k st) in
  {| viewBox := (minX m, minY m, js_sub (maxX m) (minX m),
                 js_sub (maxY m) (minY m));
     svg_scale := (1, -1)%Z;
     g_attr := g_transform st;
     points :=
       imap (λ i _, Point m (Z.of_nat i) unit (tooltip_at st i))
         (cellid (data m));
     paths := frame_paths m unit;
     labels := axis_labels m unit |}.

(** Loading the module, then the first render and its effects. *)
Definition startup (faker : Faker) (d : Data) : completion (State * Scene) :=
  m ← module_init faker d;
  let st := mount (initial d) in
  Normal (st, App m st).

(** ** The semantic unit on binary64 numbers *)

(** [transformFunc] and [unit] once more, on doubles, to run the spec's
    end-to-end scenario with the rounding JavaScript performs. *)
Module Binary64.
Import PrimFloat.

Definition transformFunc64 (k dimension : float) : float :=
  (if ltb k (100 * 0.75) then dimension / k
   else dimension / (100 * 0.75))%float.

Definition unit64 (maxY minY k : float) : float :=
  transformFunc64 k ((maxY - minY) / 250)%float.

(** Height 100 at k = 1, 50 and 90 against the doubles nearest to 0.4 and
    to 0.008, and the double 0.4 / 75. *)
Definition scenario : bool :=
  eqb (unit64 100 0 1) 0x1.999999999999ap-2
  && eqb (unit64 100 0 50) 0x1.0624dd2f1a9fcp-7
  && eqb (unit64 100 0 90) (0x1.999999999999ap-2 / 75)%float.

End Binary64.

(** ** Vocabulary of the statements *)

(** The behaviour the effect installs: [d3.zoom().scaleExtent([minZoom,
    maxZoom])]. *)
Definition installed_zoom : ZoomBehavior :=
  {| scaleExtent := (minZoom, maxZoom) |}.

(** The transition [resetZoom] starts. *)
Definition reset_transition : Transition :=
  {| duration := 250; target := Transform_scale zoomIdentity 0.8 |}.

(** Both refs are attached: what [resetZoom] tests before acting. *)
Definition mounted (st : State) : Prop :=
  svgRef st = true /\ is_Some (zoomRef st).

(** What holds of every state of the mounted component. *)
Record state_inv (d : Data) (st : State) : Prop := {
  inv_svg : svgRef st = true;
  inv_zoom : zoomRef st = Some installed_zoom;
  inv_k : k st = tk (view st);
  inv_pos : 0 < k st;
  inv_attr : forall t, g_transform st = Some t -> t = view st;
  inv_transition :
    transition st = None \/ transition st = Some reset_transition;
  inv_tooltip : length (tooltip st) = length (cellid d);
}.

(** A label line [<tspan x="0">label{v}</tspan>]. *)
Definition line (label : string) (v : jsval) (dy : option string) : Tspan :=
  {| tspan_x := "0"; dy := dy; children := [CText label; CNum v] |}.




(** What the specification asks for an empty dataset: empty coordinate
    arrays end the start-up with a reported error. *)
Definition guards_empty_dataset : Prop :=
  forall (faker : Faker) (d : Data),
    xumap d = [] \/ yumap d = [] ->
    exists e, startup faker d = Throw e.

(** ** The legend panel *)

(** The aggregate columns of the dataset, read only by the legend. *)
Record Aggregates : Type := {
  celltypenums : list Q;
  celltypepercents : list Q;
}.

(** *** Rounding to binary64

    The percentage of the legend is [Math.round] of a product, and the
    rounding of that product to a double can move it onto or off a tie.
    [round64 x] is the double nearest to [x], ties to the even mantissa:
    53 bits below the leading one, and no finer than 2^-1074. *)

(** The exponent of the leading bit of a positive rational. *)
Definition ilog2 (x : Q) : Z :=
  let e0 := (Z.log2 (Qnum x) - Z.log2 (Zpos (Qden x)))%Z in
  if Qle_bool (2 ^ e0) x then e0 else (e0 - 1)%Z.

Definition round_half_even (y : Q) : Z :=
  let n := Qfloor y in
  match Qcompare (y - inject_Z n) (1 # 2) with
  | Lt => n
  | Gt => (n + 1)%Z
  | Eq => if Z.even n then n else (n + 1)%Z
  end.

Definition round64 (x : Q) : Q :=
  if Qeq_bool x 0 then 0
  else
    let q := Z.max (ilog2 (Qabs x) - 52) (-1074) in
    inject_Z (round_half_even (x / 2 ^ q)) * 2 ^ q.

Definition eps64 : Q := 2 ^ (-53).
Definition tiny64 : Q := 2 ^ (-1075).

(** [a * b] on doubles: the operands are doubles (a value of the dataset
    that is not one stands for the double nearest to it), the product is
    rounded, and a product that rounds past the largest double is not a
    finite number. *)
Definition js_mul64 (a b : jsval) : jsval :=
  match a, b with
  | JNum x, JNum y =>
      if Qle_bool (2 ^ 1024) (Qabs (round64 (round64 x * round64 y)))
      then JNaN
      else JNum (round64 (round64 x * round64 y))
  | _, _ => JNaN
  end.

(** [round64] against the hardware.  A check runs an operation on doubles
    and compares its result with a hexadecimal literal, and compares
    [round64] of the exact result with the value of the same literal,
    [hexval 0x1d..d e] for [0x1.d..dp e] with its thirteen digits d. *)
Module Rounding64.
Import PrimFloat.

Definition hexval (mant e : Z) : Q := inject_Z mant * 2 ^ (e - 52).

Definition check (f lit : float) (x : Q) (mant e : Z) : bool :=
  eqb f lit && Qeq_bool (round64 x) (hexval mant e).

Definition checks : bool :=
  check (1 / 3)%float 0x1.5555555555555p-2 (1 # 3) 0x15555555555555 (-2)
  && check (2 / 3)%float 0x1.5555555555555p-1 (2 # 3) 0x15555555555555 (-1)
  && check (1 / 10)%float 0x1.999999999999ap-4 (1 # 10) 0x1999999999999a (-4)
  && check (7 / 1000)%float 0x1.cac083126e979p-8
       (7 # 1000) 0x1cac083126e979 (-8)
  && check (-7 / 1000)%float (-0x1.cac083126e979p-8)
       (-7 # 1000) (-0x1cac083126e979) (-8)
  && check (9007199254740992 + 1)%float 0x1.0000000000000p53
       (9007199254740993 # 1) 0x10000000000000 53
  && check (9007199254740992 + 3)%float 0x1.0000000000002p53
       (9007199254740995 # 1) 0x10000000000002 53
  && check (123456789 / 1000000007)%float 0x1.f9add33833165p-4
       (123456789 # 1000000007) 0x1f9add33833165 (-4)
  && check (85 / 1000000)%float 0x1.64840e1719f80p-14
       (85 # 1000000) 0x164840e1719f80 (-14)
  && check (0x1.64840e1719f7fp-14 * 100000)%float 0x1.1000000000000p3
       (hexval 0x164840e1719f7f (-14) * 100000) 0x11000000000000 3
  && Qeq_bool (round64 (8499999999999999 # 100000000000000000000))
       (hexval 0x164840e1719f7f (-14))
  && check (0x1p-1074 * 0.75)%float 0x1p-1074
       (3 * 2 ^ (-1076)) 0x10000000000000 (-1074)
  && check (0x1p-1074 * 1.5)%float 0x1p-1073
       (3 * 2 ^ (-1075)) 0x10000000000000 (-1073)
  && check (0x1p-1074 * 0.5)%float 0%float (2 ^ (-1075)) 0 0
  && check (0x1.fffffffffffffp1023 + 0x1p969)%float 0x1.fffffffffffffp1023
       (hexval 0x1fffffffffffff 1023 + 2 ^ 969) 0x1fffffffffffff 1023.

End Rounding64.

(** [Math.round]: the nearest integer, a half going up. *)
Definition Math_round (v : jsval) : jsval :=
  match v with
  | JNum x => JNum (inject_Z (Qfloor (x + (1 # 2))))
  | _ => JNaN
  end.

(** One [React.Fragment] of the legend grid: the colour swatch, the type,
    the count, and the percentage that is followed by a "%" sign. *)
Record LegendRow : Type := {
  row_key : string;
  background : option string;
  opacity : Q;
  type_cell : string;
  count_cell : jsval;
  percent_cell : jsval;
}.

(** Lines 154-165.  The product [percent * 100000] is rounded to a double,
    as it decides the integer [Math.round] returns; the quotient by 1000 is
    kept exact, being the decimal the resulting double is printed as. *)
Definition legend (m : Module) (agg : Aggregates) : list LegendRow :=
  imap
    (λ i type,
       {| row_key := type;
          background := cellColors m !! type;
          opacity := 0.8;
          type_cell := type;
          count_cell := num_at (celltypenums agg) (Z.of_nat i);
          percent_cell :=
            js_div
              (Math_round
                 (js_mul64 (num_at (celltypepercents agg) (Z.of_nat i))
                    (JS 100000)))
              (JS 1000) |})
    (celltypes (data m)).

(** ** More vocabulary *)

(** Whether the tooltip of marker [i] is shown once [ev] has been handled,
    going by the hover events alone. *)
Definition hover_after (i : nat) (shown : bool) (ev : Event) : bool :=
  match ev with
  | EMouseEnter j => if Nat.eqb j i then true else shown
  | EMouseLeave j => if Nat.eqb j i then false else shown
  | _ => shown
  end.

Definition is_hover (ev : Event) : bool :=
  match ev with
  | EMouseEnter _ | EMouseLeave _ => true
  | _ => false
  end.

(** The labels that get a colour, in the order the loop meets them. *)
Definition colored (cts : list string) : list string :=
  filter (λ c, c <> "Total") cts.


(** The end point of a path command. *)
Definition cmd_point (c : PathCmd) : jsval * jsval :=
  match c with
  | M x y => (x, y)
  | L x y => (x, y)
  end.

(** ** A small dataset *)

Definition sample : Data :=
  {| cellid := ["c0"; "c1"; "c2"];
     celltype := ["Bcell"; "Tcell"; "Bcell"];
     xumap := [10; 0; 100];
     yumap := [20; 100; 0];
     celltypes := ["Bcell"; "Tcell"; "Total"] |}.

Definition sample_faker : Faker :=
  λ n, match n with O => "#1f77b4" | _ => "#ff7f0e" end.

Definition sample_module : Module :=
  {| data := sample;
     minX := JNum 0; maxX := JNum 100; minY := JNum 0; maxY := JNum 100;
     cellColors := build_cellColors sample_faker (celltypes sample) |}.

Definition empty_data : Data :=
  {| cellid := []; celltype := []; xumap := []; yumap := [];
     celltypes := [] |}.

(** A fraction whose product with 100000 rounds onto the tie 8.5: the
    double written 0.00008499999999999999. *)
Definition tie_aggregates : Aggregates :=
  {| celltypenums := [1];
     celltypepercents :=
       [round64 (8499999999999999 # 100000000000000000000)] |}.

Definition sample_aggregates : Aggregates :=
  {| celltypenums := [2; 1; 3];
     celltypepercents := [0.6666666; 0.3333333; 1] |}.

(** The module constants written out in [sample_module] are the ones
    loading the module computes. *)
Example sample_module_init :
  module_init sample_faker sample = Normal sample_module.
Proof. reflexivity. Qed.

(** The point (10, 20) of category "Bcell" at zoom factor 1: a circle at
    (10, 20) filled with the colour drawn for "Bcell", of radius 0.4, and
    hovered a radius of 0.8 with the id and the category as tooltip lines. *)
Example sample_point_hidden :
  exists f, Point sample_module 0 (unit sample_module 1) false = Some f /\
    cx (circle f) = JNum 10 /\ cy (circle f) = JNum 20 /\
    fill (circle f) = "#1f77b4" /\ r (circle f) =js JNum 0.4 /\
    tip f = None.
Proof. eexists. split; [reflexivity|]. cbn. repeat split. Qed.

Example sample_point_hovered :
  exists f g, Point sample_module 0 (unit sample_module 1) true = Some f /\
    r (circle f) =js JNum 0.8 /\ tip f = Some g /\
    (children <$> tspans g) = [[CStr (Some "c0")]; [CStr (Some "Bcell")]].
Proof. do 2 eexists. split; [reflexivity|]. cbn. repeat split. Qed.

(** ** Arithmetic helpers *)

Lemma Qltb_true (x y : Q) : Qltb x y = true <-> x < y.
Proof.
  unfold Qltb. rewrite negb_true_iff. split.
  - intros E. apply Qnot_le_lt. intros Hle.
    apply Qle_bool_iff in Hle. congruence.
  - intros Hlt. destruct (Qle_bool y x) eqn:E; [|reflexivity].
    apply Qle_bool_iff in E. lra.
Qed.

Lemma Qltb_false (x y : Q) : Qltb x y = false <-> y <= x.
Proof.
  unfold Qltb. rewrite negb_false_iff. apply Qle_bool_iff.
Qed.

Lemma js_div_num (x y : Q) : ~ y == 0 -> js_div (JNum x) (JNum y) = JNum (x / y).
Proof.
  intros Hy. unfold js_div. destruct (Qeq_bool y 0) eqn:E; [|reflexivity].
  apply Qeq_bool_iff in E. contradiction.
Qed.

Lemma capK_75 : capK == 75.
Proof. reflexivity. Qed.

Lemma Qdiv_nonneg (b c : Q) : 0 <= b -> 0 < c -> 0 <= b / c.
Proof. intros Hb Hc. apply Qle_shift_div_l; [assumption | lra]. Qed.

(** Dividing a non-negative size by a larger factor gives a smaller size. *)
Lemma Qdiv_anti (b c1 c2 : Q) :
  0 <= b -> 0 < c1 -> c1 <= c2 -> b / c2 <= b / c1.
Proof.
  intros Hb Hc1 Hle.
  assert (Hc2 : 0 < c2) by lra.
  apply Qle_shift_div_l; [assumption|].
  assert (Hq : 0 <= b / c2) by (apply Qdiv_nonneg; assumption).
  assert (Hk : b / c2 * c2 == b) by (field; lra).
  rewrite <- Hk at 2.
  rewrite (Qmult_comm (b / c2) c1), (Qmult_comm (b / c2) c2).
  apply Qmult_le_compat_r; assumption.
Qed.

(** The unit over a numeric domain, branch by branch. *)
Lemma unit_below (m : Module) (hi lo z : Q) :
  maxY m = JNum hi -> minY m = JNum lo -> 0 < z -> z < capK ->
  unit m z = JNum ((hi - lo) / 250 / z).
Proof.
  intros Hhi Hlo Hpos Hlt. unfold unit, transformFunc. rewrite Hhi, Hlo.
  apply Qltb_true in Hlt. unfold capK in Hlt. rewrite Hlt. cbn [js_sub js_arith].
  rewrite js_div_num by discriminate.
  apply js_div_num. lra.
Qed.

Lemma unit_above (m : Module) (hi lo z : Q) :
  maxY m = JNum hi -> minY m = JNum lo -> capK <= z ->
  unit m z = JNum ((hi - lo) / 250 / capK).
Proof.
  intros Hhi Hlo Hge. unfold unit, transformFunc. rewrite Hhi, Hlo.
  apply Qltb_false in Hge. unfold capK in Hge. rewrite Hge. cbn [js_sub js_arith].
  rewrite js_div_num by discriminate.
  apply js_div_num. discriminate.
Qed.

(** ** The semantic scale function *)

(** On doubles too, a domain of height 100 gives 0.4, 0.008 and 0.4 / 75 at
    k = 1, 50 and 90. *)
Lemma scenario_binary64 : Binary64.scenario = true.
Proof. vm_compute. reflexivity. Qed.

(** C1: over a numeric domain, with baseUnit = (maxY - minY) / 250, the unit
    is baseUnit / k for minZoom <= k < capK and baseUnit / capK for
    capK <= k <= maxZoom, where capK = maxZoom * 0.75 = 75; for a domain of
    height 100 that makes unit(1) = 0.4, unit(50) = 0.008 and
    unit(90) = 0.4 / 75. *)
Theorem C1_unit_piecewise (m : Module) (hi lo z : Q) :
  maxY m = JNum hi -> minY m = JNum lo ->
  baseUnit m = JNum ((hi - lo) / 250) /\
  capK = maxZoom * 0.75 /\
  (minZoom <= z -> z < capK -> unit m z = JNum ((hi - lo) / 250 / z)) /\
  (capK <= z -> z <= maxZoom -> unit m z = JNum ((hi - lo) / 250 / capK)) /\
  (hi - lo == 100 ->
     unit m 1 =js JNum 0.4 /\ unit m 50 =js JNum 0.008 /\
     unit m 90 =js JNum (0.4 / 75)).
Proof.
  intros Hhi Hlo. repeat split.
  - unfold baseUnit. rewrite Hhi, Hlo. reflexivity.
  - intros Hmin Hlt. apply unit_below; try assumption.
    unfold minZoom in Hmin. lra.
  - intros Hge _. apply unit_above; assumption.
  - rewrite (unit_below m hi lo 1 Hhi Hlo) by reflexivity.
    cbn [js_eq]. rewrite H. reflexivity.
  - rewrite (unit_below m hi lo 50 Hhi Hlo) by reflexivity.
    cbn [js_eq]. rewrite H. reflexivity.
  - rewrite (unit_above m hi lo 90 Hhi Hlo) by discriminate.
    cbn [js_eq]. rewrite H. reflexivity.
Qed.

Lemma C1_unit_piecewise_witness :
  maxY sample_module = JNum 100 /\ minY sample_module = JNum 0 /\
  unit sample_module 2 = JNum ((100 - 0) / 250 / 2) /\
  unit sample_module 80 = JNum ((100 - 0) / 250 / capK) /\
  unit sample_module 50 =js JNum 0.008.
Proof.
  pose proof (C1_unit_piecewise sample_module 100 0 2 eq_refl eq_refl)
    as (_ & _ & Hlow & _ & Hex).
  pose proof (C1_unit_piecewise sample_module 100 0 80 eq_refl eq_refl)
    as (_ & _ & _ & Hhigh & _).
  split; [reflexivity|]. split; [reflexivity|].
  split; [apply Hlow; [discriminate | reflexivity]|].
  split; [apply Hhigh; discriminate|].
  apply Hex. reflexivity.
Defined.

(** C2: over a non-degenerate numeric domain (maxY > minY) the unit does not
    increase when the zoom factor increases within [minZoom, maxZoom], and
    it never falls below baseUnit / capK. *)
Theorem C2_unit_nonincreasing (m : Module) (hi lo z1 z2 : Q) :
  maxY m = JNum hi -> minY m = JNum lo -> lo < hi ->
  minZoom <= z1 -> z1 <= z2 -> z2 <= maxZoom ->
  js_le (unit m z2) (unit m z1) /\
  js_le (JNum ((hi - lo) / 250 / capK)) (unit m z2) /\
  js_le (JNum ((hi - lo) / 250 / capK)) (unit m z1).
Proof.
  intros Hhi Hlo Hdom Hmin H12 Hmax.
  assert (Hb : 0 <= (hi - lo) / 250) by (apply Qdiv_nonneg; lra).
  assert (Hz1 : 0 < z1) by (unfold minZoom in Hmin; lra).
  assert (Hz2 : 0 < z2) by lra.
  assert (Hcap : 0 < capK) by reflexivity.
  destruct (Qlt_le_dec z1 capK) as [L1 | G1];
    destruct (Qlt_le_dec z2 capK) as [L2 | G2].
  - rewrite !(unit_below m hi lo) by assumption. cbn [js_le].
    repeat split; apply Qdiv_anti; try assumption; lra.
  - rewrite (unit_below m hi lo z1), (unit_above m hi lo z2) by assumption.
    cbn [js_le]. repeat split; try apply Qle_refl.
    all: apply Qdiv_anti; try assumption; lra.
  - exfalso. lra.
  - rewrite !(unit_above m hi lo) by assumption. cbn [js_le].
    repeat split; apply Qle_refl.
Qed.

Lemma C2_unit_nonincreasing_witness :
  js_le (unit sample_module 60) (unit sample_module 2) /\
  js_le (JNum ((100 - 0) / 250 / capK)) (unit sample_module 60) /\
  js_le (JNum ((100 - 0) / 250 / capK)) (unit sample_module 2).
Proof.
  apply (C2_unit_nonincreasing sample_module 100 0 2 60);
    first [reflexivity | discriminate].
Defined.

(** ** The viewport controller *)

Lemma clamp_range (s : Q) :
  minZoom <= Qmax minZoom (Qmin maxZoom s) /\
  Qmax minZoom (Qmin maxZoom s) <= maxZoom.
Proof.
  split; [apply Q.le_max_l|].
  apply Q.max_lub; [discriminate | apply Q.le_min_l].
Qed.

Lemma tween_scale_pos (num den : positive) (x y : Q) :
  0 < tk (tween_transform num den x y).
Proof.
  unfold Qlt. cbv [tween_transform tk Qnum Qden].
  rewrite Z.mul_0_l, Z.mul_1_r. apply Pos2Z.is_pos.
Qed.

Lemma mount_inv (d : Data) : state_inv d (mount (initial d)).
Proof.
  split; cbn; try reflexivity.
  - discriminate.
  - left; reflexivity.
  - apply length_replicate.
Qed.

Lemma step_inv (d : Data) (st : State) (ev : Event) :
  state_inv d st -> state_inv d (step st ev).
Proof.
  intros [Hsvg Hzoom Hk Hpos Hattr Htr Htip].
  destruct ev as [g | | | i | i | num den x y]; cbn [step].
  - rewrite Hzoom. split; cbn; try assumption; try reflexivity.
    + destruct g as [s px py | dx dy]; cbn.
      * pose proof (clamp_range s) as [Hlo _].
        unfold minZoom in Hlo at 1. lra.
      * rewrite <- Hk. assumption.
    + intros t [= <-]. reflexivity.
    + left; reflexivity.
  - unfold resetZoom. rewrite Hzoom, Hsvg.
    split; cbn; try assumption. right; reflexivity.
  - destruct Htr as [Htr | Htr]; rewrite Htr.
    + split; try assumption. left; assumption.
    + split; cbn; try assumption; try reflexivity.
      * intros t [= <-]. reflexivity.
      * left; reflexivity.
  - split; cbn; try assumption. rewrite length_insert. assumption.
  - split; cbn; try assumption. rewrite length_insert. assumption.
  - destruct (transition st) as [tr |] eqn:Etr.
    + split; cbn [emit on_zoom set_view svgRef zoomRef k view g_transform
                    transition tooltip];
        try assumption; try reflexivity.
      * intros t [= <-]. reflexivity.
      * rewrite Etr. assumption.
    + split; try assumption. left; exact Etr.
Qed.

Lemma reachable_inv (d : Data) (st : State) :
  reachable d st -> state_inv d st.
Proof.
  induction 1 as [| st ev _ IH]; [apply mount_inv | apply step_inv, IH].
Qed.

Lemma reachable_mounted (d : Data) (st : State) :
  reachable d st -> mounted st.
Proof.
  intros Hinv%reachable_inv. split; [apply (inv_svg _ _ Hinv)|].
  rewrite (inv_zoom _ _ Hinv). eexists; reflexivity.
Qed.

(** The zoom factor read by [transformFunc] is never zero. *)
Lemma reachable_k_pos (d : Data) (st : State) :
  reachable d st -> 0 < k st.
Proof. intros H%reachable_inv. apply (inv_pos _ _ H). Qed.

Lemma run_reachable (d : Data) (evs : list Event) (st : State) :
  reachable d st -> reachable d (run st evs).
Proof.
  revert st. induction evs as [| ev evs IH]; intros st H; cbn.
  - assumption.
  - apply IH. constructor. assumption.
Qed.

(** C3: a zoom gesture that asks for scale s leaves the view at scale
    max(minZoom, min(maxZoom, s)), with minZoom = 0.5 and maxZoom = 100; the
    gesture is taken (the listener publishes the clamped transform and its
    scale), a request below or above the extent lands on the nearest bound,
    and handling it has no failing outcome. *)
Theorem C3_zoom_clamp (d : Data) (st : State) (s px py : Q) :
  reachable d st ->
  let st' := step st (EGesture (Wheel s px py)) in
  tk (view st') = Qmax minZoom (Qmin maxZoom s) /\
  minZoom = 0.5 /\ maxZoom = 100 /\
  g_transform st' = Some (view st') /\
  k st' = tk (view st') /\
  (s < minZoom -> tk (view st') == minZoom) /\
  (maxZoom < s -> tk (view st') == maxZoom) /\
  (minZoom <= s -> s <= maxZoom -> tk (view st') == s).
Proof.
  intros Hr st'. subst st'.
  pose proof (inv_zoom _ _ (reachable_inv _ _ Hr)) as Hzoom.
  cbn [step]. rewrite Hzoom. cbn.
  repeat split.
  - intros Hlo. apply Q.max_l.
    destruct (Q.min_spec maxZoom s) as [[Hlt E] | [Hle E]]; rewrite E;
      unfold minZoom, maxZoom in *; lra.
  - intros Hhi. rewrite (Q.min_l maxZoom s) by (apply Qlt_le_weak; assumption).
    apply Q.max_r. discriminate.
  - intros Hlo Hhi. rewrite (Q.min_r maxZoom s) by assumption.
    apply Q.max_r. assumption.
Qed.

Lemma C3_zoom_clamp_witness :
  tk (view (step (mount (initial sample)) (EGesture (Wheel 500 3 4))))
  == 100.
Proof.
  pose proof (C3_zoom_clamp sample (mount (initial sample)) 500 3 4
                (reach_mount sample)) as (_ & _ & _ & _ & _ & _ & Hhi & _).
  apply Hhi. reflexivity.
Defined.

(** C9: on the mounted component, whatever the view before the click,
    [resetZoom] starts a transition of 250 ms whose target is the overview
    transform (scale 0.8, no translation); once it has run the view is that
    transform, and a second reset ends at the same transform. *)
Theorem C9_reset_canonical (st : State) :
  mounted st ->
  let st1 := step (step st EResetClick) ETransitionEnd in
  let st2 := step (step st1 EResetClick) ETransitionEnd in
  transition (step st EResetClick) = Some reset_transition /\
  duration reset_transition = 250%Z /\
  view st1 = target reset_transition /\
  tk (view st1) == 0.8 /\ tx (view st1) = 0 /\ ty (view st1) = 0 /\
  k st1 == 0.8 /\
  transition (step st1 EResetClick) = Some reset_transition /\
  view st2 = view st1.
Proof.
  intros [Hsvg [z Hz]] st1 st2. subst st2 st1.
  cbn [step]. unfold resetZoom. rewrite Hz, Hsvg. cbn.
  rewrite Hz, Hsvg. cbn.
  repeat split; reflexivity.
Qed.

Lemma C9_reset_canonical_witness :
  let st := step (mount (initial sample)) (EGesture (Wheel 7 3 4)) in
  tk (view st) == 7 /\
  tk (view (step (step st EResetClick) ETransitionEnd)) == 0.8.
Proof.
  split; [reflexivity|].
  refine (proj1 (proj2 (proj2 (proj2
    (C9_reset_canonical
       (step (mount (initial sample)) (EGesture (Wheel 7 3 4))) _))))).
  split; [reflexivity | eexists; reflexivity].
Defined.

(** ** Point markers *)

Lemma Point_in_range (m : Module) (i : nat) (u : jsval) (t : bool) :
  (i < length (cellid (data m)))%nat ->
  exists f,
    Point m (Z.of_nat i) u t = Some f /\
    cx (circle f) = num_at (xumap (data m)) (Z.of_nat i) /\
    cy (circle f) = num_at (yumap (data m)) (Z.of_nat i) /\
    r (circle f) = (if t then js_mul u (JS 2) else u) /\
    fill (circle f) = fill_of m (index (celltype (data m)) (Z.of_nat i)) /\
    (t = false -> tip f = None).
Proof.
  intros Hi. unfold Point.
  assert (E1 : (Z.of_nat i <? 0)%Z = false) by (apply Z.ltb_ge; lia).
  assert (E2 : (Z.of_nat i >=? Z.of_nat (length (cellid (data m))))%Z = false)
    by (rewrite Z.geb_leb; apply Z.leb_gt; lia).
  rewrite E1, E2. cbn [orb]. eexists. split; [reflexivity|]. cbn.
  repeat split. intros ->. reflexivity.
Qed.

Lemma App_point (m : Module) (st : State) (i : nat) :
  (i < length (cellid (data m)))%nat ->
  points (App m st) !! i
  = Some (Point m (Z.of_nat i) (unit m (k st)) (tooltip_at st i)).
Proof.
  intros Hi. cbn [App points]. rewrite list_lookup_imap.
  destruct (lookup_lt_is_Some_2 (cellid (data m)) i Hi) as [c Hc].
  rewrite Hc. reflexivity.
Qed.

Lemma tooltip_at_set (st : State) (i : nat) (b : bool) :
  (i < length (tooltip st))%nat -> tooltip_at (setTooltip i b st) i = b.
Proof.
  intros Hi. unfold tooltip_at, setTooltip. cbn.
  rewrite list_lookup_insert_eq by assumption. reflexivity.
Qed.

(** C4: the marker of a valid index is a circle at the point's data
    coordinates, of radius unit while its tooltip is hidden and unit * 2
    while it is shown; hover enter shows the tooltip, hover leave hides it,
    so enter followed by leave gives a hidden tooltip and radius unit, and
    the centre is the same in every state. *)
Theorem C4_marker_hover (m : Module) (st : State) (i : nat) :
  reachable (data m) st -> (i < length (cellid (data m)))%nat ->
  let u := unit m (k st) in
  let entered := step st (EMouseEnter i) in
  let left := step entered (EMouseLeave i) in
  (forall s : State, exists f,
     points (App m s) !! i = Some (Some f) /\
     cx (circle f) = num_at (xumap (data m)) (Z.of_nat i) /\
     cy (circle f) = num_at (yumap (data m)) (Z.of_nat i) /\
     r (circle f)
     = (if tooltip_at s i then js_mul (unit m (k s)) (JS 2)
        else unit m (k s))) /\
  tooltip_at entered i = true /\
  tooltip_at left i = false /\
  (forall j : nat, j <> i -> tooltip_at entered j = tooltip_at st j) /\
  (exists f, points (App m entered) !! i = Some (Some f) /\
             r (circle f) = js_mul u (JS 2)) /\
  (exists f, points (App m left) !! i = Some (Some f) /\
             r (circle f) = u /\ tip f = None).
Proof.
  intros Hr Hi u entered left.
  pose proof (inv_tooltip _ _ (reachable_inv _ _ Hr)) as Hlen.
  assert (Hshown : tooltip_at entered i = true).
  { apply tooltip_at_set. lia. }
  assert (Hhidden : tooltip_at left i = false).
  { apply tooltip_at_set. subst entered. cbn. rewrite length_insert. lia. }
  split; [|repeat split; try assumption].
  - intros s.
    destruct (Point_in_range m i (unit m (k s)) (tooltip_at s i) Hi)
      as (f & Hf & Hx & Hy & Hrad & _).
    exists f. rewrite App_point by assumption. rewrite Hf. auto.
  - intros j Hj. unfold tooltip_at. subst entered. cbn.
    rewrite list_lookup_insert_ne by congruence. reflexivity.
  - destruct (Point_in_range m i (unit m (k entered)) true Hi)
      as (f & Hf & _ & _ & Hrad & _).
    exists f. rewrite App_point, Hshown by assumption. rewrite Hf. auto.
  - destruct (Point_in_range m i (unit m (k left)) false Hi)
      as (f & Hf & _ & _ & Hrad & _ & Htip).
    exists f. rewrite App_point, Hhidden by assumption. rewrite Hf. auto.
Qed.

Lemma C4_marker_hover_witness :
  tooltip_at
    (step (step (mount (initial sample)) (EMouseEnter 2)) (EMouseLeave 2)) 2
  = false.
Proof.
  refine (proj1 (proj2 (proj2
    (C4_marker_hover sample_module (mount (initial sample)) 2 _ _)))).
  - apply reach_mount.
  - cbn. lia.
Defined.




(** ** The colour table *)

Lemma color_fold_lookup (faker : Faker) (cts : list string)
    (acc : gmap string string * nat) (c : string) :
  is_Some (fst (fold_left (color_step faker) cts acc) !! c)
  <-> is_Some (fst acc !! c) \/ (c ∈ cts /\ c <> "Total").
Proof.
  revert acc. induction cts as [| ct cts IH]; intros acc; cbn [fold_left].
  - split; [auto|]. intros [H | [H _]]; [assumption|]. inversion H.
  - rewrite IH. unfold color_step.
    destruct (String.eqb_spec ct "Total") as [-> | Hne].
    + rewrite elem_of_cons. intuition congruence.
    + cbn [fst]. rewrite elem_of_cons, lookup_insert_is_Some.
      destruct (decide (ct = c)) as [-> | Hc]; intuition congruence.
Qed.

Lemma cellColors_keys (faker : Faker) (cts : list string) (c : string) :
  is_Some (build_cellColors faker cts !! c) <-> c ∈ cts /\ c <> "Total".
Proof.
  unfold build_cellColors. rewrite color_fold_lookup. cbn [fst].
  rewrite lookup_empty. split; [|auto].
  intros [[x Hx] | H]; [discriminate | assumption].
Qed.

Lemma module_init_fields (faker : Faker) (d : Data) (m : Module) :
  module_init faker d = Normal m ->
  data m = d /\ cellColors m = build_cellColors faker (celltypes d).
Proof. cbn. intros [= <-]. split; reflexivity. Qed.

(** C8: the table built at load time has exactly the category labels of the
    dataset other than "Total" as keys; a marker is filled with the table's
    colour for its category when there is one and with black otherwise (as
    for "Total"), and a valid index always yields its marker. *)
Theorem C8_fill_color (faker : Faker) (d : Data) (m : Module) :
  module_init faker d = Normal m ->
  (forall c : string,
     is_Some (cellColors m !! c) <-> c ∈ celltypes d /\ c <> "Total") /\
  cellColors m !! "Total" = None /\
  (forall (i : nat) (u : jsval) (t : bool),
     (i < length (cellid d))%nat ->
     exists f, Point m (Z.of_nat i) u t = Some f /\
       forall c : string, celltype d !! i = Some c ->
         match cellColors m !! c with
         | Some col => fill (circle f) = col
         | None => fill (circle f) = "black"
         end) /\
  (forall ct : option string,
     (ct ≫= λ c, cellColors m !! c) = None -> fill_of m ct = "black") /\
  fill_of m (Some "Total") = "black".
Proof.
  intros Hm. destruct (module_init_fields _ _ _ Hm) as [Hd Hc].
  assert (Hkeys : forall c : string,
     is_Some (cellColors m !! c) <-> c ∈ celltypes d /\ c <> "Total").
  { intros c. rewrite Hc. apply cellColors_keys. }
  assert (Htotal : cellColors m !! "Total" = None).
  { apply eq_None_not_Some. intros [_ Hne]%Hkeys. congruence. }
  split; [assumption|]. split; [assumption|]. split; [|split].
  - intros i u t Hi. rewrite <- Hd in Hi.
    destruct (Point_in_range m i u t Hi) as (f & Hf & _ & _ & _ & Hfill & _).
    exists f. split; [assumption|]. intros c Hct.
    rewrite Hfill. unfold fill_of, index.
    replace (Z.of_nat i <? 0)%Z with false by (symmetry; apply Z.ltb_ge; lia).
    rewrite Nat2Z.id, Hd, Hct. cbn.
    destruct (cellColors m !! c); reflexivity.
  - intros ct Hnone. unfold fill_of. rewrite Hnone. reflexivity.
  - unfold fill_of. cbn. rewrite Htotal. reflexivity.
Qed.

Lemma C8_fill_color_witness :
  cellColors sample_module !! "Total" = None /\
  (is_Some (cellColors sample_module !! "Bcell")
   <-> "Bcell" ∈ celltypes sample /\ "Bcell" <> "Total").
Proof.
  pose proof (C8_fill_color sample_faker sample sample_module eq_refl)
    as (Hkeys & Htotal & _).
  split; [exact Htotal | exact (Hkeys "Bcell")].
Defined.

(** ** Frame decorations *)

(** C10: at every zoom factor the border and both arrowheads have stroke
    width unit / 2, which is half the radius of a marker that is not
    hovered. *)
Theorem C10_frame_stroke (m : Module) (st : State) :
  let u := unit m (k st) in
  (exists border arrow_y arrow_x,
     paths (App m st) = [border; arrow_y; arrow_x] /\
     d border = [M (minX m) (maxY m); L (minX m) (minY m);
                 L (maxX m) (minY m)] /\
     path_fill border = "none" /\
     path_fill arrow_y = "black" /\ path_fill arrow_x = "black") /\
  Forall (λ p, strokeWidth p = js_div u (JS 2)) (paths (App m st)) /\
  (forall (i : Z) (f : Fragment),
     Point m i u false = Some f ->
     Forall (λ p, strokeWidth p = js_div (r (circle f)) (JS 2))
       (paths (App m st))).
Proof.
  intros u. split; [|split].
  - do 3 eexists. cbn [App paths frame_paths].
    split; [reflexivity|]. cbn. repeat split.
  - cbn [App paths frame_paths]. repeat constructor.
  - intros i f Hf. unfold Point in Hf.
    destruct ((i <? 0)%Z || (i >=? Z.of_nat (length (cellid (data m))))%Z);
      [discriminate|].
    injection Hf as <-. cbn [App paths frame_paths circle r].
    repeat constructor.
Qed.

(** The unit is a positive number as soon as the domain has some height and
    the zoom factor is positive. *)
Lemma unit_positive (m : Module) (hi lo z : Q) :
  maxY m = JNum hi -> minY m = JNum lo -> lo < hi -> 0 < z ->
  exists q, unit m z = JNum q /\ 0 < q.
Proof.
  intros Hhi Hlo Hdom Hz.
  assert (Hb : 0 < (hi - lo) / 250).
  { apply Qlt_shift_div_l; [reflexivity | lra]. }
  destruct (Qlt_le_dec z capK) as [Hlt | Hge].
  - eexists. split; [apply unit_below; eassumption|].
    apply Qlt_shift_div_l; [assumption | lra].
  - eexists. split; [apply unit_above; eassumption|].
    apply Qlt_shift_div_l; [reflexivity | lra].
Qed.

(** C6: the scene has four label lines, "x=" minX, "y=" minY, "y=" maxY and
    "x=" maxX, carried by three text elements (the first two lines share the
    one at the bottom-left corner); each element is scaled by
    (unit / 4, -unit / 4), and each is anchored off its corner, outside the
    bounding box: left of and below (minX, minY), left of and above
    (minX, maxY), and below (maxX, minY). *)
Theorem C6_axis_labels (m : Module) (st : State) (x0 x1 y0 y1 : Q) :
  minX m = JNum x0 -> maxX m = JNum x1 ->
  minY m = JNum y0 -> maxY m = JNum y1 ->
  y0 < y1 -> 0 < k st ->
  exists q, unit m (k st) = JNum q /\ 0 < q /\
    let flip := (JNum (q / 4), JNum (- q / 4)) in
    labels (App m st) =
      [ {| translate := (JNum (x0 - q * 10), JNum (y0 - q * 5));
           text_scale := flip;
           tspans := [ line "x=" (JNum x0) None;
                       line "y=" (JNum y0) (Some "1.2em") ] |};
        {| translate := (JNum (x0 - q * 10), JNum (y1 + q * 5));
           text_scale := flip;
           tspans := [ line "y=" (JNum y1) None ] |};
        {| translate := (JNum (x1 - q * 10), JNum (y0 - q * 5));
           text_scale := flip;
           tspans := [ line "x=" (JNum x1) None ] |} ] /\
    concat (tspans <$> labels (App m st)) =
      [ line "x=" (minX m) None; line "y=" (minY m) (Some "1.2em");
        line "y=" (maxY m) None; line "x=" (maxX m) None ] /\
    x0 - q * 10 < x0 /\ y0 - q * 5 < y0 /\ y1 < y1 + q * 5.
Proof.
  intros Hx0 Hx1 Hy0 Hy1 Hdom Hk.
  destruct (unit_positive m y1 y0 (k st) Hy1 Hy0 Hdom Hk) as (q & Hu & Hq).
  exists q. split; [assumption|]. split; [assumption|].
  cbn [App labels]. unfold axis_labels. rewrite Hu, Hx0, Hx1, Hy0, Hy1.
  split; [reflexivity|]. split; [reflexivity|].
  repeat split; lra.
Qed.

Lemma C6_axis_labels_witness :
  exists q, unit sample_module (k (mount (initial sample))) = JNum q /\
    0 < q /\ 0 - q * 10 < 0.
Proof.
  destruct (C6_axis_labels sample_module (mount (initial sample)) 0 100 0 100
              eq_refl eq_refl eq_refl eq_refl eq_refl eq_refl)
    as (q & Hu & Hq & _ & _ & Hleft & _).
  exists q. auto.
Defined.

(** ** Loading the module *)

Lemma extreme_returns (pick : jsval -> jsval -> jsval) (arr : list Q) :
  extreme pick arr = Normal (fold_left pick (JNum <$> arr) (num_at arr 0)).
Proof. reflexivity. Qed.

Lemma extreme_empty (pick : jsval -> jsval -> jsval) :
  extreme pick [] = Normal JUndefined.
Proof. reflexivity. Qed.

Lemma fold_pick_num (op : Q -> Q -> Q) (arr : list Q) (q : Q) :
  exists q', fold_left (js_arith op) (JNum <$> arr) (JNum q) = JNum q'.
Proof.
  revert q. induction arr as [| a arr IH]; intros q; cbn.
  - eexists; reflexivity.
  - apply IH.
Qed.

(** Over a non-empty array the bound is a number. *)
Lemma extreme_nonempty (op : Q -> Q -> Q) (arr : list Q) :
  arr <> [] -> exists q, extreme (js_arith op) arr = Normal (JNum q).
Proof.
  intros Hne. destruct arr as [| a arr]; [congruence|].
  rewrite extreme_returns.
  destruct (fold_pick_num op arr (op a a)) as [q' Hq'].
  exists q'. f_equal. exact Hq'.
Qed.

Lemma module_init_returns (faker : Faker) (d : Data) :
  module_init faker d =
  Normal
    {| data := d;
       minX := fold_left Math_min (JNum <$> xumap d) (num_at (xumap d) 0);
       maxX := fold_left Math_max (JNum <$> xumap d) (num_at (xumap d) 0);
       minY := fold_left Math_min (JNum <$> yumap d) (num_at (yumap d) 0);
       maxY := fold_left Math_max (JNum <$> yumap d) (num_at (yumap d) 0);
       cellColors := build_cellColors faker (celltypes d) |}.
Proof. reflexivity. Qed.

(** Over non-empty coordinate arrays all four bounds are numbers. *)
Lemma module_init_numeric (faker : Faker) (d : Data) :
  xumap d <> [] -> yumap d <> [] ->
  exists m x0 x1 y0 y1,
    module_init faker d = Normal m /\
    minX m = JNum x0 /\ maxX m = JNum x1 /\
    minY m = JNum y0 /\ maxY m = JNum y1.
Proof.
  intros Hx Hy. unfold module_init.
  destruct (extreme_nonempty Qmin (xumap d) Hx) as [x0 Hx0].
  destruct (extreme_nonempty Qmax (xumap d) Hx) as [x1 Hx1].
  destruct (extreme_nonempty Qmin (yumap d) Hy) as [y0 Hy0].
  destruct (extreme_nonempty Qmax (yumap d) Hy) as [y1 Hy1].
  fold Math_min in Hx0, Hy0. fold Math_max in Hx1, Hy1.
  rewrite Hx0, Hx1, Hy0, Hy1. cbn.
  do 5 eexists. split; [reflexivity|]. cbn. repeat split.
Qed.

(** C7 as specified does not hold: on the empty dataset start-up returns,
    and the scene it returns has undefined bounds and NaN sizes. *)
Lemma C7_empty_dataset_not_guarded :
  ~ guards_empty_dataset /\
  exists st sc,
    startup sample_faker empty_data = Normal (st, sc) /\
    viewBox sc = (JUndefined, JUndefined, JNaN, JNaN) /\
    paths sc = frame_paths
      {| data := empty_data; minX := JUndefined; maxX := JUndefined;
         minY := JUndefined; maxY := JUndefined; cellColors := ∅ |} JNaN.
Proof.
  split.
  - intros Hguard.
    destruct (Hguard sample_faker empty_data (or_introl eq_refl)) as [e He].
    discriminate He.
  - do 2 eexists. split; [reflexivity|]. split; reflexivity.
Qed.

(** C7 (as the code has it): the domain computation has no guard.  Loading
    the module and the first render always return; with an empty x array the
    x bounds are [undefined] and the width of the viewBox is NaN, with an
    empty y array the y bounds are [undefined], the height of the viewBox is
    NaN and so is the unit at every zoom factor, hence every stroke width. *)
Theorem C7_empty_dataset_renders (faker : Faker) (d : Data) :
  exists m st sc,
    module_init faker d = Normal m /\
    startup faker d = Normal (st, sc) /\ sc = App m st /\
    (xumap d = [] ->
       minX m = JUndefined /\ maxX m = JUndefined /\
       viewBox sc = (JUndefined, minY m, JNaN, js_sub (maxY m) (minY m))) /\
    (yumap d = [] ->
       minY m = JUndefined /\ maxY m = JUndefined /\
       viewBox sc = (minX m, JUndefined, js_sub (maxX m) (minX m), JNaN) /\
       (forall z : Q, unit m z = JNaN) /\
       Forall (λ p, strokeWidth p = JNaN) (paths sc)).
Proof.
  do 3 eexists. rewrite module_init_returns.
  split; [reflexivity|]. split; [reflexivity|]. split; [reflexivity|].
  split.
  - intros ->. cbn. repeat split.
  - intros ->. cbn. repeat split.
    + intros z. unfold unit, transformFunc. cbn.
      destruct (Qltb z _); reflexivity.
    + unfold unit, transformFunc. cbn. repeat constructor.
Qed.

Lemma C7_empty_dataset_renders_witness :
  exists m st sc,
    module_init sample_faker empty_data = Normal m /\
    startup sample_faker empty_data = Normal (st, sc) /\
    minX m = JUndefined /\ maxY m = JUndefined /\ unit m 1 = JNaN.
Proof.
  destruct (C7_empty_dataset_renders sample_faker empty_data)
    as (m & st & sc & Hm & Hs & _ & Hx & Hy).
  exists m, st, sc.
  destruct (Hx eq_refl) as (Hminx & _).
  destruct (Hy eq_refl) as (_ & Hmaxy & _ & Hunit & _).
  auto.
Defined.

(** ** The domain, once more *)

Lemma Qmin_cases (a b : Q) : Qmin a b = a \/ Qmin a b = b.
Proof.
  unfold Qmin, GenericMinMax.gmin. destruct (a ?= b); auto.
Qed.

Lemma Qmax_cases (a b : Q) : Qmax a b = a \/ Qmax a b = b.
Proof.
  unfold Qmax, GenericMinMax.gmax. destruct (a ?= b); auto.
Qed.

(** The running minimum is below its seed and below every element, and is
    the seed or an element. *)
Lemma fold_min_spec (arr : list Q) (q : Q) :
  exists lo, fold_left Math_min (JNum <$> arr) (JNum q) = JNum lo /\
    lo <= q /\ Forall (λ x, lo <= x) arr /\ (lo = q \/ lo ∈ arr).
Proof.
  revert q. induction arr as [| a arr IH]; intros q; cbn.
  - exists q. repeat split; [apply Qle_refl | constructor | auto].
  - destruct (IH (Qmin q a)) as (lo & Hfold & Hle & Hall & Hin).
    exists lo. split; [exact Hfold|].
    pose proof (Q.le_min_l q a). pose proof (Q.le_min_r q a).
    split; [lra|]. split.
    + constructor; [lra | assumption].
    + destruct Hin as [-> | Hin].
      * destruct (Qmin_cases q a) as [-> | ->]; [auto|].
        right. apply elem_of_cons. auto.
      * right. apply elem_of_cons. auto.
Qed.

Lemma fold_max_spec (arr : list Q) (q : Q) :
  exists hi, fold_left Math_max (JNum <$> arr) (JNum q) = JNum hi /\
    q <= hi /\ Forall (λ x, x <= hi) arr /\ (hi = q \/ hi ∈ arr).
Proof.
  revert q. induction arr as [| a arr IH]; intros q; cbn.
  - exists q. repeat split; [apply Qle_refl | constructor | auto].
  - destruct (IH (Qmax q a)) as (hi & Hfold & Hle & Hall & Hin).
    exists hi. split; [exact Hfold|].
    pose proof (Q.le_max_l q a). pose proof (Q.le_max_r q a).
    split; [lra|]. split.
    + constructor; [lra | assumption].
    + destruct Hin as [-> | Hin].
      * destruct (Qmax_cases q a) as [-> | ->]; [auto|].
        right. apply elem_of_cons. auto.
      * right. apply elem_of_cons. auto.
Qed.

Lemma extreme_min_spec (arr : list Q) :
  arr <> [] ->
  exists lo, extreme Math_min arr = Normal (JNum lo) /\
    lo ∈ arr /\ Forall (λ x, lo <= x) arr.
Proof.
  intros Hne. destruct arr as [| a arr]; [congruence|].
  rewrite extreme_returns.
  destruct (fold_min_spec (a :: arr) a) as (lo & Hfold & _ & Hall & Hin).
  exists lo. split; [f_equal; exact Hfold|]. split; [|exact Hall].
  destruct Hin as [-> | Hin]; [apply elem_of_cons; auto | exact Hin].
Qed.

Lemma extreme_max_spec (arr : list Q) :
  arr <> [] ->
  exists hi, extreme Math_max arr = Normal (JNum hi) /\
    hi ∈ arr /\ Forall (λ x, x <= hi) arr.
Proof.
  intros Hne. destruct arr as [| a arr]; [congruence|].
  rewrite extreme_returns.
  destruct (fold_max_spec (a :: arr) a) as (hi & Hfold & _ & Hall & Hin).
  exists hi. split; [f_equal; exact Hfold|]. split; [|exact Hall].
  destruct Hin as [-> | Hin]; [apply elem_of_cons; auto | exact Hin].
Qed.

Lemma module_init_bounds (faker : Faker) (d : Data) (m : Module) :
  module_init faker d = Normal m ->
  data m = d /\
  extreme Math_min (xumap d) = Normal (minX m) /\
  extreme Math_max (xumap d) = Normal (maxX m) /\
  extreme Math_min (yumap d) = Normal (minY m) /\
  extreme Math_max (yumap d) = Normal (maxY m).
Proof.
  rewrite module_init_returns. intros [= <-]. repeat split.
Qed.

(** The bounds of one axis, over a non-empty array. *)
Lemma axis_bounds (arr : list Q) (vlo vhi : jsval) :
  extreme Math_min arr = Normal vlo -> extreme Math_max arr = Normal vhi ->
  arr <> [] ->
  exists lo hi, vlo = JNum lo /\ vhi = JNum hi /\
    lo ∈ arr /\ hi ∈ arr /\ Forall (λ x, lo <= x /\ x <= hi) arr.
Proof.
  intros Hlo Hhi Hne.
  destruct (extreme_min_spec arr Hne) as (lo & Elo & Hlo_in & Hlo_all).
  destruct (extreme_max_spec arr Hne) as (hi & Ehi & Hhi_in & Hhi_all).
  exists lo, hi.
  rewrite Elo in Hlo. rewrite Ehi in Hhi.
  injection Hlo as <-. injection Hhi as <-.
  repeat split; try assumption.
  rewrite Forall_forall in *. intros x Hx. split; auto.
Qed.

(** Every coordinate lies between the bounds of its axis. *)
Lemma bounds_enclose (faker : Faker) (d : Data) (m : Module)
    (i j : nat) (x y : Q) :
  module_init faker d = Normal m ->
  xumap d !! i = Some x -> yumap d !! j = Some y ->
  exists x0 x1 y0 y1,
    minX m = JNum x0 /\ maxX m = JNum x1 /\
    minY m = JNum y0 /\ maxY m = JNum y1 /\
    x0 <= x /\ x <= x1 /\ y0 <= y /\ y <= y1.
Proof.
  intros Hm Hx Hy.
  destruct (module_init_bounds _ _ _ Hm) as (_ & Ex0 & Ex1 & Ey0 & Ey1).
  assert (Hxne : xumap d <> []) by (intros E; rewrite E in Hx; discriminate).
  assert (Hyne : yumap d <> []) by (intros E; rewrite E in Hy; discriminate).
  destruct (axis_bounds _ _ _ Ex0 Ex1 Hxne) as (x0 & x1 & -> & -> & _ & _ & Hxs).
  destruct (axis_bounds _ _ _ Ey0 Ey1 Hyne) as (y0 & y1 & -> & -> & _ & _ & Hys).
  exists x0, x1, y0, y1.
  rewrite Forall_forall in Hxs, Hys.
  destruct (Hxs x (list_elem_of_lookup_2 _ _ _ Hx)).
  destruct (Hys y (list_elem_of_lookup_2 _ _ _ Hy)).
  repeat split; assumption.
Qed.

(** X1: the bounds computed at load time enclose every coordinate of the
    dataset: minX <= x <= maxX for every entry of xumap, and minY <= y <=
    maxY for every entry of yumap. *)
Theorem X1_domain_encloses (faker : Faker) (d : Data) (m : Module)
    (i j : nat) (x y : Q) :
  module_init faker d = Normal m ->
  xumap d !! i = Some x -> yumap d !! j = Some y ->
  exists x0 x1 y0 y1,
    minX m = JNum x0 /\ maxX m = JNum x1 /\
    minY m = JNum y0 /\ maxY m = JNum y1 /\
    x0 <= x /\ x <= x1 /\ y0 <= y /\ y <= y1.
Proof. apply bounds_enclose. Qed.

Lemma X1_domain_encloses_witness :
  exists x0 x1 y0 y1,
    minX sample_module = JNum x0 /\ maxX sample_module = JNum x1 /\
    minY sample_module = JNum y0 /\ maxY sample_module = JNum y1 /\
    x0 <= 10 /\ 10 <= x1 /\ y0 <= 100 /\ 100 <= y1.
Proof.
  exact (X1_domain_encloses sample_faker sample sample_module 0 1 10 100
           eq_refl eq_refl eq_refl).
Defined.

(** X2: over non-empty coordinate arrays each bound is the coordinate of
    some point (the box is tight), and the box is not inverted. *)
Theorem X2_domain_tight (faker : Faker) (d : Data) (m : Module) :
  module_init faker d = Normal m ->
  xumap d <> [] -> yumap d <> [] ->
  exists x0 x1 y0 y1,
    minX m = JNum x0 /\ maxX m = JNum x1 /\
    minY m = JNum y0 /\ maxY m = JNum y1 /\
    x0 ∈ xumap d /\ x1 ∈ xumap d /\ y0 ∈ yumap d /\ y1 ∈ yumap d /\
    x0 <= x1 /\ y0 <= y1.
Proof.
  intros Hm Hxne Hyne.
  destruct (module_init_bounds _ _ _ Hm) as (_ & Ex0 & Ex1 & Ey0 & Ey1).
  destruct (axis_bounds _ _ _ Ex0 Ex1 Hxne)
    as (x0 & x1 & -> & -> & Hx0 & Hx1 & Hxs).
  destruct (axis_bounds _ _ _ Ey0 Ey1 Hyne)
    as (y0 & y1 & -> & -> & Hy0 & Hy1 & Hys).
  exists x0, x1, y0, y1.
  rewrite Forall_forall in Hxs, Hys.
  destruct (Hxs x0 Hx0). destruct (Hys y0 Hy0).
  repeat split; assumption.
Qed.

Lemma X2_domain_tight_witness :
  exists x0 x1 y0 y1,
    minX sample_module = JNum x0 /\ maxX sample_module = JNum x1 /\
    minY sample_module = JNum y0 /\ maxY sample_module = JNum y1 /\
    x0 ∈ xumap sample /\ x1 ∈ xumap sample /\
    y0 ∈ yumap sample /\ y1 ∈ yumap sample /\ x0 <= x1 /\ y0 <= y1.
Proof.
  apply (X2_domain_tight sample_faker sample sample_module eq_refl);
    discriminate.
Defined.

(** X3: when all y coordinates are equal (a single point, say) the domain
    has no height and the unit is 0 at every positive zoom factor: markers
    get radius 0 and the frame stroke width 0. *)
Theorem X3_flat_domain_zero_unit (faker : Faker) (d : Data) (m : Module)
    (c z : Q) :
  module_init faker d = Normal m ->
  yumap d <> [] -> (forall y, y ∈ yumap d -> y == c) -> 0 < z ->
  unit m z =js JNum 0 /\
  (forall (i : nat) (f : Fragment),
     Point m (Z.of_nat i) (unit m z) false = Some f ->
     r (circle f) =js JNum 0).
Proof.
  intros Hm Hyne Hflat Hz.
  destruct (module_init_bounds _ _ _ Hm) as (_ & _ & _ & Ey0 & Ey1).
  destruct (axis_bounds _ _ _ Ey0 Ey1 Hyne)
    as (y0 & y1 & Hlo & Hhi & Hy0 & Hy1 & _).
  apply Hflat in Hy0. apply Hflat in Hy1.
  assert (Hu : unit m z =js JNum 0).
  { destruct (Qlt_le_dec z capK) as [Hlt | Hge].
    - rewrite (unit_below m y1 y0 z) by assumption. cbn [js_eq].
      rewrite Hy0, Hy1. field. lra.
    - rewrite (unit_above m y1 y0 z) by assumption. cbn [js_eq].
      rewrite Hy0, Hy1. unfold capK, maxZoom. field. }
  split; [exact Hu|].
  intros i f Hf. unfold Point in Hf.
  destruct ((Z.of_nat i <? 0)%Z
            || (Z.of_nat i >=? Z.of_nat (length (cellid (data m))))%Z);
    [discriminate|].
  injection Hf as <-. exact Hu.
Qed.

Lemma X3_flat_domain_zero_unit_witness :
  let d := {| cellid := ["only"]; celltype := ["Bcell"]; xumap := [3];
              yumap := [7]; celltypes := ["Bcell"] |} in
  exists m, module_init sample_faker d = Normal m /\ unit m 1 =js JNum 0.
Proof.
  intros d. eexists. split; [reflexivity|].
  refine (proj1 (X3_flat_domain_zero_unit sample_faker d _ 7 1 eq_refl _ _ _)).
  - discriminate.
  - intros y Hy. apply list_elem_of_singleton in Hy. rewrite Hy. reflexivity.
  - reflexivity.
Defined.

(** X4: below the cap the unit cancels the zoom exactly, so a length of one
    unit keeps the on-screen size baseUnit; from the cap on the on-screen
    size is baseUnit * k / capK, which is at least baseUnit. *)
Theorem X4_screen_size (m : Module) (hi lo z : Q) :
  maxY m = JNum hi -> minY m = JNum lo -> 0 < z ->
  exists u, unit m z = JNum u /\
    (z < capK -> z * u == (hi - lo) / 250) /\
    (capK <= z -> z * u == (hi - lo) / 250 * (z / capK)) /\
    (capK <= z -> lo <= hi -> (hi - lo) / 250 <= z * u).
Proof.
  intros Hhi Hlo Hz.
  destruct (Qlt_le_dec z capK) as [Hlt | Hge].
  - exists ((hi - lo) / 250 / z). split; [apply unit_below; assumption|].
    split; [|split; intros; exfalso; lra].
    intros _. field. lra.
  - exists ((hi - lo) / 250 / capK). split; [apply unit_above; assumption|].
    split; [intros; exfalso; lra|].
    assert (Hcap : capK == 75) by reflexivity.
    split.
    + intros _. rewrite Hcap. field.
    + intros _ Hdom. rewrite Hcap in *.
      assert (E : z * ((hi - lo) / 250 / 75) == (hi - lo) / 250 * (z / 75))
        by field.
      rewrite E.
      assert (Hb : 0 <= (hi - lo) / 250) by (apply Qdiv_nonneg; lra).
      assert (Hr : 1 <= z / 75) by (apply Qle_shift_div_l; lra).
      nra.
Qed.

Lemma X4_screen_size_witness :
  exists u, unit sample_module 10 = JNum u /\ 10 * u == (100 - 0) / 250.
Proof.
  destruct (X4_screen_size sample_module 100 0 10 eq_refl eq_refl eq_refl)
    as (u & Hu & Hbelow & _).
  exists u. split; [exact Hu | apply Hbelow; reflexivity].
Defined.

(** ** The component as a state machine *)

(** X5: in every state of the mounted component the zoom factor held by
    React is the scale of the view d3 keeps, and the transform attribute of
    the group is that view; the attribute is absent only while the view is
    still the identity and k still 1. *)
Theorem X5_view_published (d : Data) (st : State) :
  reachable d st ->
  k st = tk (view st) /\
  match g_transform st with
  | Some t => t = view st
  | None => view st = zoomIdentity /\ k st = 1
  end.
Proof.
  induction 1 as [| st ev _ [IHk IHg]].
  - cbn. auto.
  - destruct ev as [g | | | i | i | num den x y]; cbn [step].
    + destruct (zoomRef st); [cbn; auto | auto].
    + unfold resetZoom. destruct (zoomRef st); [|auto].
      destruct (svgRef st); cbn; auto.
    + destruct (transition st); [cbn; auto | auto].
    + cbn. auto.
    + cbn. auto.
    + destruct (transition st); [cbn; auto | auto].
Qed.

Lemma X5_view_published_witness :
  let st := run (mount (initial sample))
              [EGesture (Wheel 3 1 1); EGesture (Drag 5 (-2)); EMouseEnter 0] in
  k st = tk (view st) /\
  match g_transform st with
  | Some t => t = view st
  | None => view st = zoomIdentity /\ k st = 1
  end.
Proof.
  intros st. apply (X5_view_published sample).
  apply run_reachable, reach_mount.
Defined.

(** X6: over a domain with some height, in every state of the mounted
    component, frames of the reset animation included, the unit is a
    positive number that is at least baseUnit / capK.  It is at most
    baseUnit / minZoom while the zoom factor is at least minZoom; on a
    frame whose interpolated scale is below minZoom, which the scale extent
    does not prevent, the unit exceeds baseUnit / minZoom. *)
Theorem X6_unit_band (m : Module) (st : State) (hi lo : Q) :
  reachable (data m) st ->
  maxY m = JNum hi -> minY m = JNum lo -> lo < hi ->
  exists q, unit m (k st) = JNum q /\ 0 < q /\
    (hi - lo) / 250 / capK <= q /\
    (minZoom <= k st -> q <= (hi - lo) / 250 / minZoom) /\
    (k st < minZoom -> (hi - lo) / 250 / minZoom < q).
Proof.
  intros Hr Hhi Hlo Hdom.
  pose proof (reachable_k_pos _ _ Hr) as Hz.
  assert (Hb : 0 < (hi - lo) / 250).
  { apply Qlt_shift_div_l; [reflexivity | lra]. }
  destruct (unit_positive m hi lo (k st) Hhi Hlo Hdom Hz) as (q & Hu & Hq).
  exists q. split; [exact Hu|]. split; [exact Hq|].
  destruct (Qlt_le_dec (k st) capK) as [Hlt | Hge].
  - rewrite (unit_below m hi lo (k st) Hhi Hlo Hz Hlt) in Hu.
    injection Hu as <-. split; [|split].
    + apply Qdiv_anti; lra.
    + intros Hmin. apply Qdiv_anti; [lra | reflexivity | assumption].
    + intros Hsmall. apply Qlt_shift_div_l; [assumption|].
      assert (E : (hi - lo) / 250 / minZoom * k st
                  == (hi - lo) / 250 * (2 * k st))
        by (unfold minZoom; field).
      rewrite E. unfold minZoom in Hsmall. nra.
  - rewrite (unit_above m hi lo (k st) Hhi Hlo Hge) in Hu.
    injection Hu as <-. split; [apply Qle_refl|]. split.
    + intros _. apply Qdiv_anti; [lra | reflexivity | discriminate].
    + intros Hsmall. exfalso. unfold minZoom in Hsmall.
      assert (Hcap : capK == 75) by reflexivity. lra.
Qed.

Lemma X6_unit_band_witness :
  let st := run (mount (initial sample)) [EResetClick; ETweenFrame 31 100 0 0] in
  exists q, unit sample_module (k st) = JNum q /\ 0 < q /\
            (100 - 0) / 250 / minZoom < q.
Proof.
  intros st.
  destruct (X6_unit_band sample_module st 100 0) as (q & Hu & Hq & _ & _ & Hbig).
  - apply (run_reachable sample), reach_mount.
  - reflexivity.
  - reflexivity.
  - reflexivity.
  - exists q. split; [exact Hu|]. split; [exact Hq|].
    apply Hbig. reflexivity.
Defined.

(** X7: a click on reset changes nothing but the pending transition: the
    zoom factor, the view, the group attribute, the tooltips and hence the
    scene are as before; clicking again while the transition is pending is
    the same as clicking once; and with a ref missing the click does
    nothing at all. *)
Theorem X7_reset_click (m : Module) (st : State) :
  k (resetZoom st) = k st /\
  view (resetZoom st) = view st /\
  g_transform (resetZoom st) = g_transform st /\
  tooltip (resetZoom st) = tooltip st /\
  App m (resetZoom st) = App m st /\
  resetZoom (resetZoom st) = resetZoom st /\
  (svgRef st = false \/ zoomRef st = None -> resetZoom st = st).
Proof.
  unfold resetZoom.
  destruct (zoomRef st) as [z |] eqn:Hz; destruct (svgRef st) eqn:Hs;
    cbn; rewrite ?Hz, ?Hs; cbn;
    repeat split; try reflexivity;
    intros [H | H]; congruence.
Qed.

Lemma tooltip_step_length (st : State) (ev : Event) :
  length (tooltip (step st ev)) = length (tooltip st).
Proof.
  destruct ev as [g | | | i | i | num den x y]; cbn [step].
  - destruct (zoomRef st); reflexivity.
  - unfold resetZoom. destruct (zoomRef st); [|reflexivity].
    destruct (svgRef st); reflexivity.
  - destruct (transition st); reflexivity.
  - cbn. apply length_insert.
  - cbn. apply length_insert.
  - destruct (transition st); reflexivity.
Qed.

Lemma setTooltip_comm (st : State) (i j : nat) (a b : bool) :
  i <> j ->
  setTooltip j b (setTooltip i a st) = setTooltip i a (setTooltip j b st).
Proof.
  intros Hij. unfold setTooltip. cbn. f_equal.
  apply list_insert_insert_ne. congruence.
Qed.

(** X8: hovering and the viewport do not interfere.  A hover event and a
    gesture, reset click or transition end give the same state in either
    order, and so do hover events on two different markers. *)
Theorem X8_hover_commutes (st : State) (hov ev : Event) :
  is_hover hov = true ->
  (is_hover ev = false ->
   step (step st hov) ev = step (step st ev) hov) /\
  (forall (i j : nat) (a b : bool),
     hov = (if a then EMouseEnter i else EMouseLeave i) ->
     ev = (if b then EMouseEnter j else EMouseLeave j) ->
     i <> j -> step (step st hov) ev = step (step st ev) hov).
Proof.
  intros Hhov. split.
  - intros Hev.
    destruct hov as [| | | i | i |]; try discriminate;
      destruct ev as [g | | | | | num den x y]; try discriminate;
      cbn [step].
    all: try (cbn [setTooltip zoomRef view]; destruct (zoomRef st);
              reflexivity).
    all: try (unfold resetZoom; cbn [setTooltip zoomRef svgRef];
              destruct (zoomRef st); [|reflexivity];
              destruct (svgRef st); reflexivity).
    all: cbn [setTooltip transition]; destruct (transition st); reflexivity.
  - intros i j a b -> -> Hij.
    destruct a, b; cbn [step]; apply setTooltip_comm; assumption.
Qed.

Lemma X8_hover_commutes_witness :
  step (step (mount (initial sample)) (EMouseEnter 1)) (EGesture (Wheel 4 0 0))
  = step (step (mount (initial sample)) (EGesture (Wheel 4 0 0)))
      (EMouseEnter 1).
Proof.
  apply (X8_hover_commutes (mount (initial sample)) (EMouseEnter 1)
           (EGesture (Wheel 4 0 0)) eq_refl).
  reflexivity.
Defined.

Lemma tooltip_at_step (st : State) (ev : Event) (i : nat) :
  (i < length (tooltip st))%nat ->
  tooltip_at (step st ev) i = hover_after i (tooltip_at st i) ev.
Proof.
  intros Hi.
  destruct ev as [g | | | j | j | num den x y]; cbn [step hover_after].
  - destruct (zoomRef st); reflexivity.
  - unfold resetZoom. destruct (zoomRef st); [|reflexivity].
    destruct (svgRef st); reflexivity.
  - destruct (transition st); reflexivity.
  - destruct (Nat.eqb_spec j i) as [-> | Hne].
    + apply tooltip_at_set. assumption.
    + unfold tooltip_at, setTooltip. cbn.
      rewrite list_lookup_insert_ne by assumption. reflexivity.
  - destruct (Nat.eqb_spec j i) as [-> | Hne].
    + apply tooltip_at_set. assumption.
    + unfold tooltip_at, setTooltip. cbn.
      rewrite list_lookup_insert_ne by assumption. reflexivity.
  - destruct (transition st); reflexivity.
Qed.

Lemma tooltip_at_run (evs : list Event) (st : State) (i : nat) :
  (i < length (tooltip st))%nat ->
  tooltip_at (run st evs) i = fold_left (hover_after i) evs (tooltip_at st i).
Proof.
  revert st. induction evs as [| ev evs IH]; intros st Hi; cbn.
  - reflexivity.
  - unfold run in IH. rewrite IH by (rewrite tooltip_step_length; assumption).
    rewrite tooltip_at_step by assumption. reflexivity.
Qed.

(** X9: after any sequence of events on the mounted component, the tooltip
    of a marker is shown exactly when the last hover event on that marker
    was an enter; gestures, resets and hover events on other markers never
    show or dismiss it.  A hover event on an index without a marker leaves
    every tooltip as it was. *)
Theorem X9_tooltip_trace (d : Data) (evs : list Event) (i : nat) :
  ((i < length (cellid d))%nat ->
   tooltip_at (run (mount (initial d)) evs) i
   = fold_left (hover_after i) evs false) /\
  ((length (cellid d) <= i)%nat ->
   forall (st : State) (b : bool), reachable d st ->
     tooltip (setTooltip i b st) = tooltip st).
Proof.
  split.
  - intros Hi. rewrite tooltip_at_run.
    + f_equal. unfold tooltip_at. cbn.
      rewrite lookup_replicate_2 by assumption. reflexivity.
    + cbn. rewrite length_replicate. assumption.
  - intros Hi st b Hr. cbn.
    apply list_insert_ge.
    rewrite (inv_tooltip _ _ (reachable_inv _ _ Hr)). assumption.
Qed.

Lemma X9_tooltip_trace_witness :
  tooltip_at
    (run (mount (initial sample))
       [EMouseEnter 1; EGesture (Drag 2 2); EMouseEnter 0; EMouseLeave 0;
        EResetClick]) 1
  = true.
Proof.
  refine (eq_trans
    (proj1 (X9_tooltip_trace sample
       [EMouseEnter 1; EGesture (Drag 2 2); EMouseEnter 0; EMouseLeave 0;
        EResetClick] 1) _) _).
  - cbn. lia.
  - reflexivity.
Defined.

(** ** The scene, once more *)

Lemma index_nat {A} (arr : list A) (i : nat) :
  index arr (Z.of_nat i) = arr !! i.
Proof.
  unfold index.
  replace (Z.of_nat i <? 0)%Z with false by (symmetry; apply Z.ltb_ge; lia).
  rewrite Nat2Z.id. reflexivity.
Qed.

Lemma num_at_nat (arr : list Q) (i : nat) (x : Q) :
  num_at arr (Z.of_nat i) = JNum x <-> arr !! i = Some x.
Proof.
  unfold num_at. rewrite index_nat.
  destruct (arr !! i); split; congruence.
Qed.

Lemma num_at_past (arr : list Q) (i : nat) :
  (length arr <= i)%nat -> num_at arr (Z.of_nat i) = JUndefined.
Proof.
  intros Hi. unfold num_at. rewrite index_nat.
  rewrite lookup_ge_None_2 by assumption. reflexivity.
Qed.

(** What [Point] returns for an index in range, all attributes spelled
    out. *)
Lemma Point_some (m : Module) (i : nat) (u : jsval) (t : bool) :
  (i < length (cellid (data m)))%nat ->
  Point m (Z.of_nat i) u t =
  Some
    {| key := cellid (data m) !! i;
       circle :=
         {| id := cellid (data m) !! i;
            cx := num_at (xumap (data m)) (Z.of_nat i);
            cy := num_at (yumap (data m)) (Z.of_nat i);
            r := if t then js_mul u (JS 2) else u;
            fill := fill_of m (celltype (data m) !! i);
            fillOpacity := 0.8 |};
       tip :=
         if t then
           Some
             {| translate :=
                  (js_add (num_at (xumap (data m)) (Z.of_nat i))
                     (js_mul u (JS 2)),
                   num_at (yumap (data m)) (Z.of_nat i));
                text_scale := counter_scale u;
                tspans :=
                  [ {| tspan_x := "0"; dy := None;
                       children := [CStr (cellid (data m) !! i)] |};
                    {| tspan_x := "0"; dy := Some "1.2em";
                       children := [CStr (celltype (data m) !! i)] |} ] |}
         else None |}.
Proof.
  intros Hi. unfold Point.
  assert (E1 : (Z.of_nat i <? 0)%Z = false) by (apply Z.ltb_ge; lia).
  assert (E2 : (Z.of_nat i >=? Z.of_nat (length (cellid (data m))))%Z = false)
    by (rewrite Z.geb_leb; apply Z.leb_gt; lia).
  rewrite E1, E2. cbn [orb]. rewrite !index_nat. reflexivity.
Qed.

Lemma Point_none (m : Module) (i : Z) (u : jsval) (t : bool) :
  (i < 0 \/ Z.of_nat (length (cellid (data m))) <= i)%Z ->
  Point m i u t = None.
Proof.
  intros Hi. unfold Point.
  destruct (i <? 0)%Z eqn:E1; [reflexivity|].
  destruct (i >=? Z.of_nat (length (cellid (data m))))%Z eqn:E2;
    [reflexivity|].
  apply Z.ltb_ge in E1. rewrite Z.geb_leb in E2. apply Z.leb_gt in E2. lia.
Qed.

Lemma Point_some_inv (m : Module) (i : Z) (u : jsval) (t : bool)
    (f : Fragment) :
  Point m i u t = Some f ->
  exists n : nat, i = Z.of_nat n /\ (n < length (cellid (data m)))%nat.
Proof.
  intros Hf.
  destruct (Z_lt_le_dec i 0) as [Hneg | Hpos].
  { rewrite Point_none in Hf by (left; assumption). discriminate. }
  destruct (Z_lt_le_dec i (Z.of_nat (length (cellid (data m))))) as [Hlt | Hge].
  - exists (Z.to_nat i). split; lia.
  - rewrite Point_none in Hf by (right; assumption). discriminate.
Qed.

Lemma App_point_inv (m : Module) (st : State) (i : nat)
    (pf : option Fragment) :
  points (App m st) !! i = Some pf ->
  (i < length (cellid (data m)))%nat /\
  pf = Point m (Z.of_nat i) (unit m (k st)) (tooltip_at st i).
Proof.
  intros Hp.
  assert (Hi : (i < length (cellid (data m)))%nat).
  { apply lookup_lt_Some in Hp. cbn [App points] in Hp.
    rewrite length_imap in Hp. assumption. }
  split; [assumption|].
  rewrite App_point in Hp by assumption. congruence.
Qed.

(** X10: the scene holds exactly one marker per entry of cellid, in order,
    none of them null; marker i carries cellid[i] as its id and key, so
    distinct cell ids give distinct element ids. *)
Theorem X10_one_marker_per_cell (m : Module) (st : State) :
  length (points (App m st)) = length (cellid (data m)) /\
  (forall (i : nat) (c : string),
     cellid (data m) !! i = Some c ->
     exists f, points (App m st) !! i = Some (Some f) /\
       id (circle f) = Some c /\ key f = Some c) /\
  (forall i : nat, points (App m st) !! i <> Some None) /\
  (NoDup (cellid (data m)) ->
   forall (i j : nat) (f g : Fragment),
     points (App m st) !! i = Some (Some f) ->
     points (App m st) !! j = Some (Some g) ->
     id (circle f) = id (circle g) -> i = j).
Proof.
  split; [cbn [App points]; apply length_imap|].
  split; [|split].
  - intros i c Hc.
    assert (Hi : (i < length (cellid (data m)))%nat)
      by (eapply lookup_lt_Some; eassumption).
    rewrite App_point, Point_some by assumption.
    eexists. split; [reflexivity|]. cbn. auto.
  - intros i Hp. destruct (App_point_inv _ _ _ _ Hp) as [Hi E].
    rewrite Point_some in E by assumption. discriminate.
  - intros Hnd i j f g Hf Hg Hid.
    destruct (App_point_inv _ _ _ _ Hf) as [Hi Ef].
    destruct (App_point_inv _ _ _ _ Hg) as [Hj Eg].
    rewrite Point_some in Ef, Eg by assumption.
    injection Ef as ->. injection Eg as ->. cbn in Hid.
    destruct (lookup_lt_is_Some_2 _ _ Hi) as [c Hc].
    rewrite Hc in Hid. symmetry in Hid.
    eapply NoDup_lookup; eassumption.
Qed.



(** X12: the guard of [Point] looks at cellid alone.  For an index that
    cellid has but a shorter parallel array lacks, the marker is still
    rendered: with an undefined cx (and a NaN tooltip offset) past the end
    of xumap, an undefined cy past the end of yumap, and the black fill and
    an empty category line past the end of celltype. *)
Theorem X12_shorter_parallel_arrays (m : Module) (i : nat) (u : jsval)
    (t : bool) :
  (i < length (cellid (data m)))%nat ->
  exists f, Point m (Z.of_nat i) u t = Some f /\
    ((length (xumap (data m)) <= i)%nat ->
       cx (circle f) = JUndefined /\
       forall g, tip f = Some g -> fst (translate g) = JNaN) /\
    ((length (yumap (data m)) <= i)%nat ->
       cy (circle f) = JUndefined /\
       forall g, tip f = Some g -> snd (translate g) = JUndefined) /\
    ((length (celltype (data m)) <= i)%nat ->
       fill (circle f) = "black" /\
       forall g, tip f = Some g ->
         children <$> tspans g !! 1%nat = Some [CStr None]).
Proof.
  intros Hi. rewrite Point_some by assumption.
  eexists. split; [reflexivity|]. cbn.
  split; [|split].
  - intros Hx. rewrite num_at_past by assumption.
    split; [reflexivity|]. intros g Hg. destruct t; [|discriminate].
    injection Hg as <-. reflexivity.
  - intros Hy. rewrite num_at_past by assumption.
    split; [reflexivity|]. intros g Hg. destruct t; [|discriminate].
    injection Hg as <-. reflexivity.
  - intros Hc. rewrite (lookup_ge_None_2 (celltype (data m))) by assumption.
    split; [reflexivity|]. intros g Hg. destruct t; [|discriminate].
    injection Hg as <-. reflexivity.
Qed.

Lemma X12_shorter_parallel_arrays_witness :
  let m := {| data := {| cellid := ["a"; "b"]; celltype := ["Bcell"];
                         xumap := [1]; yumap := [2; 3];
                         celltypes := ["Bcell"] |};
              minX := JNum 1; maxX := JNum 1; minY := JNum 2;
              maxY := JNum 3; cellColors := ∅ |} in
  exists f, Point m 1 (JNum 1) true = Some f /\
    cx (circle f) = JUndefined /\ cy (circle f) = JNum 3 /\
    fill (circle f) = "black".
Proof.
  intros m.
  destruct (X12_shorter_parallel_arrays m 1 (JNum 1) true)
    as (f & Hf & Hx & _ & Hc).
  - cbn. lia.
  - exists f. split; [exact Hf|].
    destruct Hx as [Hcx _]; [cbn; lia|].
    destruct Hc as [Hfill _]; [cbn; lia|].
    split; [exact Hcx|]. split; [|exact Hfill].
    cbn in Hf. injection Hf as <-. reflexivity.
Defined.

(** X13: each arrowhead is a closed triangle: its path ends where it
    starts.  Over a numeric domain and unit q, the tip of the y arrow is q
    above the top-left corner and the tip of the x arrow q to the right of
    the bottom-right corner, and each base is a segment of length q centred
    on the corner. *)
Theorem X13_arrowheads (m : Module) (st : State) (x0 x1 y0 y1 q : Q) :
  minX m = JNum x0 -> maxX m = JNum x1 ->
  minY m = JNum y0 -> maxY m = JNum y1 ->
  unit m (k st) = JNum q ->
  exists border arrow_y arrow_x,
    paths (App m st) = [border; arrow_y; arrow_x] /\
    cmd_point <$> head (d arrow_y) = cmd_point <$> last (d arrow_y) /\
    cmd_point <$> head (d arrow_x) = cmd_point <$> last (d arrow_x) /\
    cmd_point <$> d arrow_y =
      [ (JNum x0, JNum (y1 + q)); (JNum (x0 - q / 2), JNum y1);
        (JNum (x0 + q / 2), JNum y1); (JNum x0, JNum (y1 + q)) ] /\
    cmd_point <$> d arrow_x =
      [ (JNum (x1 + q), JNum y0); (JNum x1, JNum (y0 - q / 2));
        (JNum x1, JNum (y0 + q / 2)); (JNum (x1 + q), JNum y0) ] /\
    (x0 + q / 2) - (x0 - q / 2) == q /\
    ((x0 - q / 2) + (x0 + q / 2)) / 2 == x0 /\
    (y0 + q / 2) - (y0 - q / 2) == q /\
    ((y0 - q / 2) + (y0 + q / 2)) / 2 == y0.
Proof.
  intros Hx0 Hx1 Hy0 Hy1 Hu.
  do 3 eexists. cbn [App paths]. unfold frame_paths.
  rewrite Hu, Hx0, Hx1, Hy0, Hy1.
  split; [reflexivity|]. cbn.
  repeat split; try reflexivity; field.
Qed.

Lemma X13_arrowheads_witness :
  exists border arrow_y arrow_x,
    paths (App sample_module (mount (initial sample)))
    = [border; arrow_y; arrow_x] /\
    cmd_point <$> head (d arrow_y) = cmd_point <$> last (d arrow_y) /\
    cmd_point <$> head (d arrow_x) = cmd_point <$> last (d arrow_x).
Proof.
  destruct (X13_arrowheads sample_module (mount (initial sample))
              0 100 0 100 ((100 - 0) / 250 / 1)
              eq_refl eq_refl eq_refl eq_refl eq_refl)
    as (b & ay & ax & Hp & Hy & Hx & _).
  exists b, ay, ax. auto.
Defined.

(** X14: a marker has a tooltip group exactly while its tooltip state is
    shown; the group is then anchored at the right edge of the enlarged
    circle, (cx + r, cy), its text carries the counter scale of the unit,
    and its two lines are the point's id and category. *)
Theorem X14_tooltip_geometry (m : Module) (i : Z) (u : jsval) (t : bool)
    (f : Fragment) :
  Point m i u t = Some f ->
  (tip f = None <-> t = false) /\
  forall g, tip f = Some g ->
    r (circle f) = js_mul u (JS 2) /\
    translate g = (js_add (cx (circle f)) (r (circle f)), cy (circle f)) /\
    text_scale g = counter_scale u /\
    children <$> tspans g =
      [ [CStr (id (circle f))]; [CStr (index (celltype (data m)) i)] ] /\
    dy <$> tspans g = [ None; Some "1.2em" ].
Proof.
  intros Hf.
  destruct (Point_some_inv _ _ _ _ _ Hf) as (n & -> & Hn).
  rewrite Point_some in Hf by assumption. injection Hf as <-.
  rewrite index_nat. cbn. destruct t; split.
  - split; discriminate.
  - intros g [= <-]. cbn. repeat split.
  - split; reflexivity.
  - intros g [=].
Qed.

Lemma X14_tooltip_geometry_witness :
  exists f g, Point sample_module 2 (JNum 1) true = Some f /\
    tip f = Some g /\ translate g = (JNum (100 + 1 * 2), JNum 0).
Proof.
  eexists. eexists. split; [reflexivity|]. split; [reflexivity|].
  refine (eq_trans (proj1 (proj2 (proj2
    (X14_tooltip_geometry sample_module 2 (JNum 1) true _ eq_refl) _ eq_refl)))
    _).
  reflexivity.
Defined.

(** X15: text is never mirrored.  Over a domain with some height and a
    positive zoom factor, every text of the scene, axis label or tooltip,
    is scaled by (q / 4, -q / 4) with q > 0 the unit, so that together with
    the scale(1, -1) of the svg its net vertical scale is the positive
    horizontal one. *)
Theorem X15_text_upright (m : Module) (st : State) (hi lo : Q) :
  maxY m = JNum hi -> minY m = JNum lo -> lo < hi -> 0 < k st ->
  exists q, unit m (k st) = JNum q /\ 0 < q /\
    svg_scale (App m st) = (1, -1)%Z /\
    forall g : TextGroup,
      (g ∈ labels (App m st) \/
       exists i f, points (App m st) !! i = Some (Some f) /\ tip f = Some g) ->
      exists sx sy, text_scale g = (JNum sx, JNum sy) /\
        sx == q / 4 /\ 0 < sx /\
        inject_Z (snd (svg_scale (App m st))) * sy == sx.
Proof.
  intros Hhi Hlo Hdom Hk.
  destruct (unit_positive m hi lo (k st) Hhi Hlo Hdom Hk) as (q & Hu & Hq).
  exists q. split; [exact Hu|]. split; [exact Hq|]. split; [reflexivity|].
  assert (Hscale : counter_scale (JNum q) = (JNum (q / 4), JNum (- q / 4)))
    by reflexivity.
  assert (Hgoal : forall g, text_scale g = counter_scale (JNum q) ->
    exists sx sy, text_scale g = (JNum sx, JNum sy) /\
      sx == q / 4 /\ 0 < sx /\
      inject_Z (snd (svg_scale (App m st))) * sy == sx).
  { intros g Hg. exists (q / 4), (- q / 4).
    split; [rewrite Hg; exact Hscale|].
    split; [reflexivity|]. split.
    - apply Qlt_shift_div_l; [reflexivity | lra].
    - cbn. field. }
  intros g [Hg | (i & f & Hp & Ht)]; apply Hgoal.
  - cbn [App labels] in Hg. unfold axis_labels in Hg. rewrite Hu in Hg.
    repeat (apply elem_of_cons in Hg; destruct Hg as [-> | Hg];
            [reflexivity|]).
    inversion Hg.
  - destruct (App_point_inv _ _ _ _ Hp) as [Hi E].
    rewrite Point_some in E by assumption. injection E as ->.
    cbn in Ht. destruct (tooltip_at st i); [|discriminate].
    injection Ht as <-. cbn. rewrite Hu. reflexivity.
Qed.

Lemma X15_text_upright_witness :
  exists q, unit sample_module (k (mount (initial sample))) = JNum q /\
    0 < q /\ svg_scale (App sample_module (mount (initial sample)))
             = (1, -1)%Z.
Proof.
  destruct (X15_text_upright sample_module (mount (initial sample)) 100 0
              eq_refl eq_refl eq_refl eq_refl) as (q & Hu & Hq & Hs & _).
  exists q. auto.
Defined.

(** ** The colour table, once more *)

Lemma colored_cons (ct : string) (cts : list string) :
  colored (ct :: cts)
  = if String.eqb ct "Total" then colored cts else ct :: colored cts.
Proof.
  unfold colored. rewrite filter_cons.
  destruct (String.eqb_spec ct "Total") as [-> | Hne].
  - case_decide; [congruence | reflexivity].
  - case_decide; [reflexivity | contradiction].
Qed.

Lemma color_fold_absent (faker : Faker) (cts : list string)
    (acc : gmap string string * nat) (c : string) :
  c ∉ cts -> fst (fold_left (color_step faker) cts acc) !! c = fst acc !! c.
Proof.
  revert acc. induction cts as [| ct cts IH]; intros acc Hc; cbn [fold_left].
  - reflexivity.
  - apply not_elem_of_cons in Hc as [Hne Hc].
    rewrite IH by assumption. unfold color_step.
    destruct (String.eqb ct "Total"); [reflexivity|].
    cbn [fst]. apply lookup_insert_ne. congruence.
Qed.

(** Without repeated labels, the p-th coloured label keeps the p-th colour
    drawn after the ones already drawn. *)
Lemma color_fold_nth (faker : Faker) (cts : list string)
    (acc : gmap string string * nat) (p : nat) (c : string) :
  NoDup cts -> colored cts !! p = Some c ->
  fst (fold_left (color_step faker) cts acc) !! c
  = Some (faker (snd acc + p)%nat).
Proof.
  revert acc p. induction cts as [| ct cts IH]; intros acc p Hnd Hp.
  - discriminate.
  - apply NoDup_cons in Hnd as [Hfresh Hnd].
    rewrite colored_cons in Hp. cbn [fold_left]. unfold color_step at 2.
    destruct (String.eqb ct "Total").
    + apply IH; assumption.
    + destruct p as [| p]; cbn in Hp.
      * injection Hp as ->.
        rewrite color_fold_absent by assumption. cbn [fst snd].
        rewrite lookup_insert_eq. f_equal. f_equal. lia.
      * rewrite (IH _ p) by assumption. cbn [snd]. f_equal. f_equal. lia.
Qed.

(** Every colour of the table was drawn from the generator, by one of the
    calls the loop made. *)
Lemma color_fold_drawn (faker : Faker) (cts : list string)
    (acc : gmap string string * nat) (c col : string) :
  fst (fold_left (color_step faker) cts acc) !! c = Some col ->
  fst acc !! c = Some col \/
  exists n, (snd acc <= n < snd acc + length (colored cts))%nat /\
            col = faker n.
Proof.
  revert acc. induction cts as [| ct cts IH]; intros acc Hc;
    cbn [fold_left] in Hc.
  - auto.
  - rewrite colored_cons. apply IH in Hc. unfold color_step in Hc.
    destruct (String.eqb ct "Total").
    + assumption.
    + cbn [fst snd length] in *. destruct Hc as [Hc | (n & Hn & ->)].
      * apply lookup_insert_Some in Hc as [[_ <-] | [_ Hc]].
        -- right. exists (snd acc). split; [lia | reflexivity].
        -- auto.
      * right. exists n. split; [lia | reflexivity].
Qed.

(** X16: when the list of category labels has no repetition, the labels
    other than "Total" receive the colours in the order the generator
    returns them: the p-th such label gets the colour of the p-th call. *)
Theorem X16_colors_in_call_order (faker : Faker) (d : Data) (m : Module)
    (p : nat) (c : string) :
  module_init faker d = Normal m ->
  NoDup (celltypes d) -> colored (celltypes d) !! p = Some c ->
  cellColors m !! c = Some (faker p).
Proof.
  intros Hm Hnd Hp. destruct (module_init_fields _ _ _ Hm) as [_ ->].
  unfold build_cellColors.
  rewrite (color_fold_nth faker _ _ p c) by assumption. reflexivity.
Qed.

Lemma X16_colors_in_call_order_witness :
  cellColors sample_module !! "Tcell" = Some (sample_faker 1%nat).
Proof.
  apply (X16_colors_in_call_order sample_faker sample sample_module 1%nat
           "Tcell" eq_refl).
  - apply (bool_decide_unpack _). vm_compute. exact I.
  - reflexivity.
Defined.

(** X17: every colour stored in the table is a colour the generator
    returned, at one of the calls made for the labels other than "Total";
    the loop makes exactly one call per such entry of the list. *)
Theorem X17_colors_drawn (faker : Faker) (d : Data) (m : Module)
    (c col : string) :
  module_init faker d = Normal m ->
  cellColors m !! c = Some col ->
  exists n, (n < length (colored (celltypes d)))%nat /\ col = faker n.
Proof.
  intros Hm Hc. destruct (module_init_fields _ _ _ Hm) as [_ E].
  rewrite E in Hc. unfold build_cellColors in Hc.
  apply color_fold_drawn in Hc. cbn [fst snd] in Hc.
  destruct Hc as [Hc | (n & Hn & ->)].
  - rewrite lookup_empty in Hc. discriminate.
  - exists n. split; [lia | reflexivity].
Qed.

Lemma X17_colors_drawn_witness :
  exists n, (n < length (colored (celltypes sample)))%nat /\
            "#1f77b4" = sample_faker n.
Proof.
  apply (X17_colors_drawn sample_faker sample sample_module "Bcell"
           "#1f77b4" eq_refl).
  reflexivity.
Defined.

(** ** The legend *)

Lemma legend_row (m : Module) (agg : Aggregates) (i : nat) (t : string) :
  celltypes (data m) !! i = Some t ->
  legend m agg !! i =
  Some {| row_key := t;
          background := cellColors m !! t;
          opacity := 0.8;
          type_cell := t;
          count_cell := num_at (celltypenums agg) (Z.of_nat i);
          percent_cell :=
            js_div
              (Math_round
                 (js_mul64 (num_at (celltypepercents agg) (Z.of_nat i))
                    (JS 100000)))
              (JS 1000) |}.
Proof.
  intros Ht. unfold legend. rewrite list_lookup_imap, Ht. reflexivity.
Qed.

(** X18: the legend has one row per entry of the list of category labels,
    in order, "Total" included.  The row of "Total" has no swatch colour,
    every other row has one, and it is the colour that fills the markers of
    that category. *)
Theorem X18_legend_rows (faker : Faker) (d : Data) (m : Module)
    (agg : Aggregates) :
  module_init faker d = Normal m ->
  length (legend m agg) = length (celltypes d) /\
  type_cell <$> legend m agg = celltypes d /\
  forall (i : nat) (row : LegendRow),
    legend m agg !! i = Some row ->
    row_key row = type_cell row /\
    (type_cell row = "Total" -> background row = None) /\
    (type_cell row <> "Total" ->
     exists col, background row = Some col /\
                 fill_of m (Some (type_cell row)) = col).
Proof.
  intros Hm. destruct (module_init_fields _ _ _ Hm) as [Hd Hc].
  split; [unfold legend; rewrite length_imap, Hd; reflexivity|].
  split.
  - apply list_eq. intros i. rewrite list_lookup_fmap, <- Hd.
    destruct (celltypes (data m) !! i) as [t |] eqn:Ht.
    + rewrite (legend_row m agg i t Ht). reflexivity.
    + unfold legend. rewrite list_lookup_imap, Ht. reflexivity.
  - intros i row Hrow.
    destruct (celltypes (data m) !! i) as [t |] eqn:Ht.
    + rewrite (legend_row m agg i t Ht) in Hrow. injection Hrow as <-. cbn.
      split; [reflexivity|].
      assert (Hkeys : is_Some (cellColors m !! t)
                      <-> t ∈ celltypes d /\ t <> "Total").
      { rewrite Hc. apply cellColors_keys. }
      split.
      * intros ->. apply eq_None_not_Some. intros [_ Hne]%Hkeys. congruence.
      * intros Hne.
        destruct (proj2 Hkeys) as [col Hcol].
        { split; [|assumption]. rewrite <- Hd.
          eapply list_elem_of_lookup_2. eassumption. }
        exists col. split; [assumption|].
        unfold fill_of. cbn. rewrite Hcol. reflexivity.
    + unfold legend in Hrow. rewrite list_lookup_imap, Ht in Hrow.
      discriminate.
Qed.

Lemma X18_legend_rows_witness :
  type_cell <$> legend sample_module sample_aggregates
  = ["Bcell"; "Tcell"; "Total"].
Proof.
  exact (proj1 (proj2 (X18_legend_rows sample_faker sample sample_module
                         sample_aggregates eq_refl))).
Defined.

Lemma round_near (x : Q) :
  x - (1 # 2) < inject_Z (Qfloor (x + (1 # 2))) /\
  inject_Z (Qfloor (x + (1 # 2))) <= x + (1 # 2).
Proof.
  pose proof (Qfloor_le (x + (1 # 2))) as Hle.
  pose proof (Qlt_floor (x + (1 # 2))) as Hlt.
  rewrite inject_Z_plus in Hlt. change (inject_Z 1) with 1 in Hlt.
  split; lra.
Qed.

(** *** The rounding of the product *)

Lemma round_half_even_near (y : Q) :
  y - (1 # 2) <= inject_Z (round_half_even y) /\
  inject_Z (round_half_even y) <= y + (1 # 2).
Proof.
  unfold round_half_even.
  pose proof (Qfloor_le y) as Hle.
  pose proof (Qlt_floor y) as Hlt.
  rewrite inject_Z_plus in Hlt. change (inject_Z 1) with 1 in Hlt.
  destruct (Qcompare (y - inject_Z (Qfloor y)) (1 # 2)) eqn:E.
  - apply Qeq_alt in E.
    destruct (Z.even (Qfloor y)).
    + split; lra.
    + rewrite inject_Z_plus. change (inject_Z 1) with 1. split; lra.
  - apply Qlt_alt in E. split; lra.
  - apply Qgt_alt in E. rewrite inject_Z_plus. change (inject_Z 1) with 1.
    split; lra.
Qed.

Lemma two_pow_pos (e : Z) : 0 < 2 ^ e.
Proof. apply Qpower_0_lt. reflexivity. Qed.

Lemma two_pow_add (a b : Z) : 2 ^ (a + b) == 2 ^ a * 2 ^ b.
Proof. apply Qpower_plus. discriminate. Qed.

Lemma inject_two_pow (n : Z) : (0 <= n)%Z -> inject_Z (2 ^ n) == 2 ^ n.
Proof. intros Hn. apply (Zpower_Qpower 2 n Hn). Qed.

(** The leading bit found by [ilog2] is not above the number. *)
Lemma ilog2_le (x : Q) : 0 < x -> 2 ^ ilog2 x <= x.
Proof.
  intros Hx. unfold ilog2.
  destruct (Qle_bool (2 ^ (Z.log2 (Qnum x) - Z.log2 (Z.pos (Qden x)))) x)
    eqn:E.
  - apply Qle_bool_iff. exact E.
  - destruct x as [a b]. cbn [Qnum Qden] in *.
    assert (Ha : (0 < a)%Z).
    { unfold Qlt in Hx. cbn in Hx. lia. }
    pose proof (Z.log2_spec a Ha) as [Hla _].
    pose proof (Z.log2_spec (Z.pos b) (Pos2Z.is_pos b)) as [_ Hlb].
    pose proof (Z.log2_nonneg a) as Hna.
    pose proof (Z.log2_nonneg (Z.pos b)) as Hnb.
    set (la := Z.log2 a) in *. set (lb := Z.log2 (Z.pos b)) in *.
    rewrite (Qmake_Qdiv a b).
    apply Qle_shift_div_l.
    { change 0 with (inject_Z 0). rewrite <- Zlt_Qlt. apply Pos2Z.is_pos. }
    apply Qle_trans with (2 ^ (la - lb - 1) * 2 ^ (lb + 1)).
    + apply Qmult_le_l; [apply two_pow_pos|].
      rewrite <- inject_two_pow by lia.
      rewrite <- Zle_Qle. unfold Z.succ in Hlb. lia.
    + rewrite <- two_pow_add.
      replace (la - lb - 1 + (lb + 1))%Z with la by lia.
      rewrite <- inject_two_pow by lia.
      rewrite <- Zle_Qle. exact Hla.
Qed.

(** Rounding to a double moves a number by at most 2^-53 of its size, or
    by 2^-1075 near zero. *)
Lemma round64_err (x : Q) :
  x - (Qabs x * eps64 + tiny64) <= round64 x /\
  round64 x <= x + (Qabs x * eps64 + tiny64).
Proof.
  pose proof (Qabs_nonneg x) as Habs.
  assert (Heps : 0 < eps64) by apply two_pow_pos.
  assert (Htiny : 0 < tiny64) by apply two_pow_pos.
  unfold round64. destruct (Qeq_bool x 0) eqn:E0.
  - apply Qeq_bool_iff in E0. rewrite E0 in *.
    assert (0 <= Qabs 0 * eps64 + tiny64) by nra.
    split; lra.
  - apply Qeq_bool_neq in E0.
    assert (Hxpos : 0 < Qabs x).
    { destruct (Qlt_le_dec 0 (Qabs x)) as [H | H]; [exact H|].
      exfalso. apply E0. apply Qabs_Qle_condition in H. lra. }
    set (e := ilog2 (Qabs x)).
    pose proof (ilog2_le (Qabs x) Hxpos) as Hlog. fold e in Hlog.
    set (q := Z.max (e - 52) (-1074)).
    pose proof (two_pow_pos q) as Hq.
    destruct (round_half_even_near (x / 2 ^ q)) as [Hlo Hhi].
    set (mant := inject_Z (round_half_even (x / 2 ^ q))) in *.
    assert (Hxq : x / 2 ^ q * 2 ^ q == x) by (field; lra).
    assert (Hhalf : 2 ^ q * (1 # 2) <= Qabs x * eps64 + tiny64).
    { assert (Hq1 : 2 ^ q * (1 # 2) == 2 ^ (q - 1)).
      { replace (q - 1)%Z with (q + -1)%Z by lia. rewrite two_pow_add.
        reflexivity. }
      rewrite Hq1.
      destruct (Z.max_spec (e - 52) (-1074)) as [[_ Hm] | [_ Hm]];
        fold q in Hm; rewrite Hm.
      - change (-1074 - 1)%Z with (-1075)%Z. fold tiny64. nra.
      - replace (e - 52 - 1)%Z with (e + -53)%Z by lia.
        rewrite two_pow_add. fold eps64. nra. }
    split.
    + assert (H1 : (x / 2 ^ q - (1 # 2)) * 2 ^ q <= mant * 2 ^ q).
      { apply Qmult_le_compat_r; lra. }
      nra.
    + assert (H1 : mant * 2 ^ q <= (x / 2 ^ q + (1 # 2)) * 2 ^ q).
      { apply Qmult_le_compat_r; lra. }
      nra.
Qed.

Lemma eps64_small : 0 < eps64 /\ eps64 <= 1 # 9000000000000000.
Proof. split; [apply two_pow_pos | vm_compute; discriminate]. Qed.

Lemma tiny64_small : 0 < tiny64 /\ tiny64 <= eps64.
Proof. split; [apply two_pow_pos | vm_compute; discriminate]. Qed.

Lemma round64_100000 : round64 (inject_Z 100000) == 100000.
Proof. vm_compute. reflexivity. Qed.

Lemma large64 : 200000 < 2 ^ 1024.
Proof. vm_compute. reflexivity. Qed.

(** [round64] on hardware doubles. *)
Lemma round64_agrees : Rounding64.checks = true.
Proof. vm_compute. reflexivity. Qed.

(** The product of a fraction in [0, 1] by 100000, as a double. *)
Lemma percent_product (p : Q) :
  0 <= p -> p <= 1 ->
  exists r,
    js_mul64 (JNum p) (JS 100000) = JNum r /\
    100000 * p - (1 # 20000000000) <= r /\
    r <= 100000 * p + (1 # 20000000000).
Proof.
  intros Hp0 Hp1.
  destruct eps64_small as [He0 He1]. destruct tiny64_small as [Ht0 Ht1].
  pose proof large64 as Hlarge.
  destruct (round64_err p) as [Ha_lo Ha_hi].
  rewrite (Qabs_pos p Hp0) in Ha_lo, Ha_hi.
  set (a := round64 p) in *.
  pose proof round64_100000 as Hc.
  set (c := round64 (inject_Z 100000)) in *.
  assert (Hpe : p * eps64 <= eps64) by nra.
  assert (Hz_lo : 100000 * p - 200000 * eps64 <= a * c).
  { rewrite Hc. nra. }
  assert (Hz_hi : a * c <= 100000 * p + 200000 * eps64).
  { rewrite Hc. nra. }
  assert (Habs : Qabs (a * c) <= 100001).
  { apply Qabs_Qle_condition. split; nra. }
  destruct (round64_err (a * c)) as [Hr_lo Hr_hi].
  set (r := round64 (a * c)) in *.
  assert (Hze : Qabs (a * c) * eps64 <= 100001 * eps64).
  { apply Qmult_le_compat_r; [exact Habs | lra]. }
  assert (Hr1 : 100000 * p - 300002 * eps64 <= r) by lra.
  assert (Hr2 : r <= 100000 * p + 300002 * eps64) by lra.
  exists r. split.
  - unfold js_mul64, JS. fold a c r.
    destruct (Qle_bool (2 ^ 1024) (Qabs r)) eqn:E; [|reflexivity].
    exfalso. apply Qle_bool_iff in E.
    assert (Hrabs : Qabs r <= 200000).
    { apply Qabs_Qle_condition. split; nra. }
    lra.
  - split; nra.
Qed.

(** X19: for a fraction p in [0, 1], the percentage shown is a multiple of
    0.001 within 0.0005 of 100 * p, up to the rounding of the product
    p * 100000 to a double, which is below 1e-13 percent: a product that
    the rounding puts on a tie goes up. *)
Theorem X19_legend_percent (m : Module) (agg : Aggregates) (i : nat)
    (t : string) (p : Q) :
  celltypes (data m) !! i = Some t ->
  celltypepercents agg !! i = Some p ->
  0 <= p -> p <= 1 ->
  exists row n,
    legend m agg !! i = Some row /\
    percent_cell row = JNum (inject_Z n / 1000) /\
    100 * p - (1 # 2000) - (1 # 10000000000000) <= inject_Z n / 1000 /\
    inject_Z n / 1000 <= 100 * p + (1 # 2000) + (1 # 10000000000000).
Proof.
  intros Ht Hp Hp0 Hp1. rewrite (legend_row m agg i t Ht).
  destruct (percent_product p Hp0 Hp1) as (r & Hr & Hlo & Hhi).
  eexists. exists (Qfloor (r + (1 # 2))).
  split; [reflexivity|]. cbn [percent_cell].
  apply num_at_nat in Hp. rewrite Hp, Hr. cbn [Math_round].
  split; [reflexivity|].
  destruct (round_near r) as [Hn_lo Hn_hi].
  split.
  - apply Qle_shift_div_l; [reflexivity | lra].
  - apply Qle_shift_div_r; [reflexivity | lra].
Qed.

Lemma X19_legend_percent_witness :
  exists row n,
    legend sample_module tie_aggregates !! 0%nat = Some row /\
    percent_cell row = JNum (inject_Z n / 1000) /\
    inject_Z n / 1000
    <= 100 * round64 (8499999999999999 # 100000000000000000000)
       + (1 # 2000) + (1 # 10000000000000).
Proof.
  destruct (X19_legend_percent sample_module tie_aggregates 0 "Bcell"
              (round64 (8499999999999999 # 100000000000000000000))
              eq_refl eq_refl)
    as (row & n & Hrow & Hcell & _ & Hhi).
  - vm_compute. discriminate.
  - vm_compute. discriminate.
  - exists row, n. auto.
Defined.

(** The double written 0.00008499999999999999 is shown as 0.009 percent:
    its product with 100000 is rounded to 8.5 before [Math.round]. *)
Example tie_rounds_up :
  percent_cell <$> legend sample_module tie_aggregates !! 0%nat
  = Some (JNum (inject_Z 9 / 1000)).
Proof. vm_compute. reflexivity. Qed.

(** X20: a row whose index is past the end of an aggregate column is still
    rendered: with an undefined count past the end of celltypenums, and
    with NaN as its percentage past the end of celltypepercents. *)
Theorem X20_legend_short_columns (m : Module) (agg : Aggregates) (i : nat)
    (t : string) :
  celltypes (data m) !! i = Some t ->
  exists row, legend m agg !! i = Some row /\
    ((length (celltypenums agg) <= i)%nat -> count_cell row = JUndefined) /\
    ((length (celltypepercents agg) <= i)%nat -> percent_cell row = JNaN).
Proof.
  intros Ht. rewrite (legend_row m agg i t Ht).
  eexists. split; [reflexivity|]. cbn.
  split; intros Hi; rewrite num_at_past by assumption; reflexivity.
Qed.

Lemma X20_legend_short_columns_witness :
  exists row,
    legend sample_module {| celltypenums := [2]; celltypepercents := [] |}
      !! 1%nat = Some row /\
    count_cell row = JUndefined /\ percent_cell row = JNaN.
Proof.
  destruct (X20_legend_short_columns sample_module
              {| celltypenums := [2]; celltypepercents := [] |} 1 "Tcell"
              eq_refl) as (row & Hrow & Hc & Hp).
  exists row. split; [exact Hrow|].
  split; [apply Hc | apply Hp]; cbn; lia.
Defined.

End Plot.
